(** * A shallow embedding of AI-PDF-Simplifier (src/app.py, src/pdf_text_extractor.py)

    Python strings are modelled as lists of Unicode code points ([pystr]).
    The pieces of the standard library the program calls ([str.split],
    [str.replace], [str.strip], [str.lstrip], [textwrap.wrap]) are modelled
    after their CPython definitions; the program's own functions are
    translated line by line. *)

From Stdlib Require Import String Ascii List NArith ZArith Lia Bool.
Import ListNotations.

Open Scope list_scope.

(** ** Python strings *)

Definition pychar := N.
Definition pystr := list pychar.

(** A Python string literal written with ASCII characters. *)
Definition lit (s : string) : pystr := map N_of_ascii (list_ascii_of_string s).

(** [s.startswith(p)] *)
Fixpoint startswith (p s : pystr) : bool :=
  match p with
  | [] => true
  | c :: p' =>
      match s with
      | [] => false
      | d :: s' => N.eqb c d && startswith p' s'
      end
  end.

(** [sub in s] *)
Fixpoint str_in (sub s : pystr) : bool :=
  startswith sub s ||
  match s with
  | [] => false
  | _ :: s' => str_in sub s'
  end.

(** The first occurrence of [sep] in [s]: the text before it and the text
    after it (the search [str.split] and [str.replace] perform, left to
    right). *)
Fixpoint partition_first (sep s : pystr) : option (pystr * pystr) :=
  if startswith sep s then Some ([], skipn (length sep) s)
  else
    match s with
    | [] => None
    | c :: s' =>
        match partition_first sep s' with
        | Some (a, b) => Some (c :: a, b)
        | None => None
        end
    end.

(** [s.split(sep)] for a non-empty [sep] (every separator of the program is
    a non-empty literal).  Each round consumes at least one character, so
    [length s + 1] rounds are enough. *)
Fixpoint split_go (fuel : nat) (sep s : pystr) : list pystr :=
  match fuel with
  | O => [s]
  | S f =>
      match partition_first sep s with
      | None => [s]
      | Some (a, b) => a :: split_go f sep b
      end
  end.

Definition py_split (sep s : pystr) : list pystr := split_go (S (length s)) sep s.

(** [s.replace(old, new)] for a non-empty [old]. *)
Fixpoint replace_go (fuel : nat) (old new s : pystr) : pystr :=
  match fuel with
  | O => s
  | S f =>
      match partition_first old s with
      | None => s
      | Some (a, b) => a ++ new ++ replace_go f old new b
      end
  end.

Definition py_replace (old new s : pystr) : pystr :=
  replace_go (S (length s)) old new s.

(** [str.isspace] on one code point (CPython's [Py_UNICODE_ISSPACE]). *)
Definition is_py_space (c : pychar) : bool :=
  ((9 <=? c) && (c <=? 13))%N || ((28 <=? c) && (c <=? 32))%N ||
  N.eqb c 133 || N.eqb c 160 || N.eqb c 5760 ||
  ((8192 <=? c) && (c <=? 8202))%N ||
  N.eqb c 8232 || N.eqb c 8233 || N.eqb c 8239 || N.eqb c 8287 ||
  N.eqb c 12288.

Fixpoint drop_while (p : pychar -> bool) (s : pystr) : pystr :=
  match s with
  | [] => []
  | c :: s' => if p c then drop_while p s' else s
  end.

Definition is_nil {A} (l : list A) : bool :=
  match l with [] => true | _ => false end.

(** [s.strip()] *)
Definition py_strip (s : pystr) : pystr :=
  rev (drop_while is_py_space (rev (drop_while is_py_space s))).

(** [s.lstrip(chars)] *)
Definition py_lstrip_chars (chars s : pystr) : pystr :=
  drop_while (fun c => existsb (N.eqb c) chars) s.

(** Option bind, the [IndexError] of [xs[i]] being [None]. *)
Notation "'let*' x := e 'in' k" :=
  (match e with Some x => k | None => None end)
  (at level 200, x name, e at level 100, k at level 200).

(** ** Section splitting (src/app.py, lines 248-250) *)

Definition SEC1 : pystr := lit "=== SECTION 1: SIMPLIFIED TEXT ===".
Definition SEC2_MARK : pystr := lit "=== SECTION 2".
Definition SEC2 : pystr := lit "=== SECTION 2: BULLET POINT SUMMARY ===".
Definition SEC3_MARK : pystr := lit "=== SECTION 3".
Definition SEC3 : pystr := lit "=== SECTION 3: GLOSSARY ===".

Record SectionBundle := mkBundle {
  simplified : pystr;
  bullets : pystr;
  glossary : pystr
}.

(** [None] is the [IndexError] raised by one of the [[1]] subscripts; in the
    handler it is caught by the surrounding [except Exception] and reported
    with [st.error]. *)
Definition split_sections (output : pystr) : option SectionBundle :=
  let* s0 := nth_error (py_split SEC2_MARK output) 0 in
  let simplified := py_strip (py_replace SEC1 [] s0) in
  let* s1 := nth_error (py_split SEC2 output) 1 in
  let* b0 := nth_error (py_split SEC3_MARK s1) 0 in
  let bullets := py_strip b0 in
  let* g1 := nth_error (py_split SEC3 output) 1 in
  let glossary := py_strip g1 in
  Some (mkBundle simplified bullets glossary).

(** The text before the first occurrence of [sep], the whole text when
    there is none: [s.split(sep)[0]]. *)
Definition before_first (sep s : pystr) : pystr :=
  match partition_first sep s with
  | Some (a, _) => a
  | None => s
  end.

(** No occurrence of [sep] starts inside [x] when [x] is followed by [t]. *)
Fixpoint occ_free (sep x t : pystr) : bool :=
  match x with
  | [] => true
  | c :: x' => negb (startswith sep (c :: x' ++ t)) && occ_free sep x' t
  end.

Definition EQ_SIGN : pychar := 61%N.

(** No two consecutive [=] characters. *)
Fixpoint no_double_eq (x : pystr) : bool :=
  match x with
  | a :: ((b :: _) as r) => negb (N.eqb a EQ_SIGN && N.eqb b EQ_SIGN) && no_double_eq r
  | _ => true
  end.

(** A section body as the delimiter protocol expects it: no [==] inside
    (so no delimiter line inside), and not starting with [=] or a space,
    which would continue the delimiter line it follows. *)
Definition plain_body (x : pystr) : bool :=
  no_double_eq x &&
  match x with
  | c :: _ => negb (N.eqb c EQ_SIGN) && negb (N.eqb c 32)
  | [] => true
  end.

(** The end of the blob or the start of a delimiter line. *)
Definition delim_start (t : pystr) : bool := is_nil t || startswith (lit "=== ") t.

(** What may follow a delimiter in a blob built from plain bodies: the end,
    a character other than [=] and space, or the next delimiter. *)
Definition delim_follow (u : pystr) : bool :=
  match u with
  | [] => true
  | c :: _ => negb (N.eqb c EQ_SIGN) && negb (N.eqb c 32) || startswith (lit "=== ") u
  end.

(** ** Native text extraction (src/app.py lines 108-123 and
    src/pdf_text_extractor.py lines 4-19) *)

(** What pdfplumber's [page.extract_text()] does on one page: it returns a
    string or [None], or it raises. *)
Inductive page :=
| Page (content : option pystr)
| PageRaises.

(** What [pdfplumber.open] does on the input: it raises, or it yields the
    pages in page order. *)
Inductive pdf_source :=
| OpenFails
| Pdf (pages : list page).

Definition NL : pystr := [10%N].

(** The [for page in pdf.pages] loop shared by both functions; [None] is an
    exception escaping the loop. *)
Fixpoint extract_pages (pages : list page) (text : pystr) : option pystr :=
  match pages with
  | [] => Some text
  | PageRaises :: _ => None
  | Page content :: rest =>
      let text' :=
        match content with
        | Some ((_ :: _) as s) => text ++ s ++ NL   (* if content: *)
        | _ => text
        end in
      extract_pages rest text'
  end.

Module App.
(** [extract_pdf_text] of src/app.py: the [except] branch returns the empty string. *)
Definition extract_pdf_text (uploaded_file : pdf_source) : pystr :=
  match uploaded_file with
  | OpenFails => []
  | Pdf pages =>
      match extract_pages pages [] with
      | Some text => text
      | None => []
      end
  end.
End App.

Module PdfTextExtractor.
(** [extract_pdf_text] of src/pdf_text_extractor.py: the [except] branch
    returns [None]. *)
Definition extract_pdf_text (file_path : pdf_source) : option pystr :=
  match file_path with
  | OpenFails => None
  | Pdf pages => extract_pages pages []
  end.
End PdfTextExtractor.

(** The page-by-page reading of the spec, used to state what the two
    functions compute: a page that did not raise, and the non-empty page
    texts in page order. *)
Definition page_ok (p : page) : bool :=
  match p with PageRaises => false | Page _ => true end.

Fixpoint page_fragments (pages : list page) : list pystr :=
  match pages with
  | [] => []
  | Page (Some ((_ :: _) as s)) :: rest => s :: page_fragments rest
  | _ :: rest => page_fragments rest
  end.

Definition native_text (pages : list page) : pystr :=
  concat (map (fun s => s ++ NL) (page_fragments pages)).

(** ** [textwrap.wrap(text, width)] with the default [TextWrapper] options
    (CPython 3.10 and later): [expand_tabs], [replace_whitespace],
    [drop_whitespace], [break_long_words] and [break_on_hyphens] all on,
    no indents, no [max_lines]. *)

Section Textwrap.

(** Python's [str.isalnum] and [str.isdecimal] on one code point: the
    Unicode database the regular expressions [\w] and [\d] consult. *)
Variable is_alnum : pychar -> bool.
Variable is_decimal : pychar -> bool.

(** [textwrap._whitespace = '\t\n\x0b\x0c\r '] *)
Definition is_tw_space (c : pychar) : bool :=
  ((9 <=? c) && (c <=? 13))%N || N.eqb c 32.

(** [\w], [letter = [^\d\W]] and [word_punct]: [\w] or one of the characters 33, 34, 39, 38, 46, 44, 63 (! double-quote apostrophe & . , ?). *)
Definition is_word (c : pychar) : bool := is_alnum c || N.eqb c 95.
Definition is_letter (c : pychar) : bool := is_word c && negb (is_decimal c).
Definition is_word_punct (c : pychar) : bool :=
  is_word c || existsb (N.eqb c) [33; 34; 39; 38; 46; 44; 63]%N.

Definition HYPHEN : pychar := 45%N.

(** [str.expandtabs()] (tab size 8; the column restarts after ['\n'] and
    ['\r']). *)
Fixpoint expandtabs_go (col : nat) (s : pystr) : pystr :=
  match s with
  | [] => []
  | c :: s' =>
      if N.eqb c 9 then
        let incr := 8 - Nat.modulo col 8 in
        repeat 32%N incr ++ expandtabs_go (col + incr) s'
      else c :: expandtabs_go (if N.eqb c 10 || N.eqb c 13 then 0 else S col) s'
  end.

(** [TextWrapper._munge_whitespace]: expand tabs, then every character of
    [_whitespace] becomes a space. *)
Definition munge_whitespace (text : pystr) : pystr :=
  map (fun c => if is_tw_space c then 32%N else c) (expandtabs_go 0 text).

Fixpoint take_while (p : pychar -> bool) (s : pystr) : pystr :=
  match s with
  | [] => []
  | c :: s' => if p c then c :: take_while p s' else []
  end.

(** [-{2,}(?=\w)] at the start of [s]. *)
Fixpoint dashes_then_word (s : pystr) : bool :=
  match s with
  | [] => false
  | c :: s' => if N.eqb c HYPHEN then dashes_then_word s' else is_word c
  end.

Definition emdash_at (s : pystr) : bool :=
  match s with
  | a :: b :: r => N.eqb a HYPHEN && N.eqb b HYPHEN && dashes_then_word r
  | _ => false
  end.

(** Lookbehind [(?<=word_punct)]: [pv] is the text before the current
    position, nearest character first. *)
Definition after_word_punct (pv : pystr) : bool :=
  match pv with
  | a :: _ => is_word_punct a
  | [] => false
  end.

(** The hyphenated-word branch of [wordsep_re]:
    [-(?:(?<=lt{2}-)|(?<=lt-lt-))(?=lt-?lt)], tried after the characters
    in [pv] (nearest first) with [r] still to read. *)
Definition hyphen_ok (pv r : pystr) : bool :=
  match r with
  | h :: r' =>
      N.eqb h HYPHEN &&
      (match pv with
       | a :: b :: _ => is_letter a && is_letter b
       | _ => false
       end ||
       match pv with
       | a :: h' :: b :: _ => is_letter a && N.eqb h' HYPHEN && is_letter b
       | _ => false
       end) &&
      match r' with
      | a :: b :: t =>
          is_letter a &&
          (N.eqb b HYPHEN && match t with d :: _ => is_letter d | [] => false end
           || is_letter b)
      | _ => false
      end
  | [] => false
  end.

(** The end-of-word branch [(?=whitespace|\Z)]. *)
Definition word_end_ok (r : pystr) : bool :=
  match r with
  | [] => true
  | c :: _ => is_tw_space c
  end.

(** The em-dash branch [(?<=word_punct)(?=-{2,}\w)]. *)
Definition emdash_ok (pv r : pystr) : bool := after_word_punct pv && emdash_at r.

(** The word alternative [nowhitespace+?(?:hyphen|end|em-dash)]: the lazy
    quantifier reads one character at a time and tries the three branches
    in order.  Returns the matched chunk and the rest of the text. *)
Fixpoint scan_word (pv s : pystr) : pystr * pystr :=
  match s with
  | [] => ([], [])
  | c :: r =>
      let pv' := c :: pv in
      if hyphen_ok pv' r then ([c; HYPHEN], tl r)
      else if word_end_ok r then ([c], r)
      else if emdash_ok pv' r then ([c], r)
      else let (w, rest) := scan_word pv' r in (c :: w, rest)
  end.

(** [wordsep_re.split(text)] with the empty pieces filtered out, as
    [TextWrapper._split] does.  [wordsep_re] is
    [(whitespace+ | (?<=word_punct)-{2,}(?=\w) | word)]; every match starts
    where the previous one ended, so the chunks are the successive
    matches.  Each chunk is non-empty, so [length s] rounds are enough. *)
Fixpoint chunks_go (fuel : nat) (pv s : pystr) : list pystr :=
  match fuel with
  | O => []
  | S f =>
      match s with
      | [] => []
      | c :: _ =>
          if is_tw_space c then
            let run := take_while is_tw_space s in
            run :: chunks_go f (rev run ++ pv) (drop_while is_tw_space s)
          else if after_word_punct pv && emdash_at s then
            let run := take_while (N.eqb HYPHEN) s in
            run :: chunks_go f (rev run ++ pv) (drop_while (N.eqb HYPHEN) s)
          else
            let (w, rest) := scan_word pv s in
            w :: chunks_go f (rev w ++ pv) rest
      end
  end.

(** [TextWrapper._split_chunks] *)
Definition split_chunks (text : pystr) : list pystr :=
  let t := munge_whitespace text in chunks_go (length t) [] t.

(** [chunk.strip() == ''] *)
Definition blank (s : pystr) : bool := forallb is_py_space s.

(** The inner [while chunks:] loop of [_wrap_chunks]: move chunks onto the
    line while they fit. *)
Fixpoint take_fitting (width cur_len : nat) (chunks cur_line : list pystr)
  : list pystr * nat * list pystr :=
  match chunks with
  | [] => (cur_line, cur_len, [])
  | ch :: rest =>
      if cur_len + length ch <=? width then
        take_fitting width (cur_len + length ch) rest (cur_line ++ [ch])
      else (cur_line, cur_len, chunks)
  end.

(** [s.rfind(c, 0, stop)], [None] for [-1]. *)
Fixpoint rfind_go (c : pychar) (i : nat) (s : pystr) (acc : option nat) : option nat :=
  match s with
  | [] => acc
  | d :: s' => rfind_go c (S i) s' (if N.eqb d c then Some i else acc)
  end.

Definition rfind (c : pychar) (s : pystr) (stop : nat) : option nat :=
  rfind_go c 0 (firstn stop s) None.

(** [TextWrapper._handle_long_word] with [break_long_words] and
    [break_on_hyphens] on; [chunks] is non-empty here. *)
Definition handle_long_word (chunks cur_line : list pystr) (cur_len width : nat)
  : list pystr * list pystr :=
  match chunks with
  | [] => (cur_line, chunks)
  | chunk :: rest =>
      let space_left := if width <? 1 then 1 else width - cur_len in
      let end_ :=
        if space_left <? length chunk then
          match rfind HYPHEN chunk space_left with
          | Some hyphen =>
              if (0 <? hyphen) &&
                 existsb (fun c => negb (N.eqb c HYPHEN)) (firstn hyphen chunk)
              then hyphen + 1 else space_left
          | None => space_left
          end
        else space_left in
      (cur_line ++ [firstn end_ chunk], skipn end_ chunk :: rest)
  end.

(** One round of the outer [while chunks:] loop of
    [TextWrapper._wrap_chunks]; [chunks] is the reversed list of the source,
    its head being the chunk the source pops next. *)
Definition wrap_round (width : nat) (chunks lines : list pystr)
  : list pystr * list pystr :=
  let chunks1 :=
    match chunks with
    | ch :: rest => if blank ch && negb (is_nil lines) then rest else chunks
    | [] => []
    end in
  let '(cur_line, cur_len, chunks2) := take_fitting width 0 chunks1 [] in
  let '(cur_line2, chunks3) :=
    match chunks2 with
    | ch :: _ =>
        if width <? length ch then handle_long_word chunks2 cur_line cur_len width
        else (cur_line, chunks2)
    | [] => (cur_line, chunks2)
    end in
  let cur_line3 :=
    match rev cur_line2 with
    | last :: before => if blank last then rev before else cur_line2
    | [] => cur_line2
    end in
  let lines' := if is_nil cur_line3 then lines else lines ++ [concat cur_line3] in
  (chunks3, lines').

Fixpoint wrap_chunks_go (fuel width : nat) (chunks lines : list pystr) : list pystr :=
  match fuel with
  | O => lines
  | S f =>
      match chunks with
      | [] => lines
      | _ :: _ =>
          let (chunks', lines') := wrap_round width chunks lines in
          wrap_chunks_go f width chunks' lines'
      end
  end.

(** [textwrap.wrap(text, width)] for [width >= 1] (the program calls it with
    100 and 95).  Every round consumes at least one character of the
    chunks, so one round more than their total length is enough. *)
Definition textwrap_wrap (width : nat) (text : pystr) : list pystr :=
  let chunks := split_chunks text in
  wrap_chunks_go (S (length (concat chunks))) width chunks [].

End Textwrap.

(** Python's [str.isalnum] and [str.isdecimal] on the Latin-1 block
    (code points 0-255), the characters of every concrete input below. *)
Definition latin1_isalnum (c : pychar) : bool :=
  ((48 <=? c) && (c <=? 57))%N || ((65 <=? c) && (c <=? 90))%N ||
  ((97 <=? c) && (c <=? 122))%N ||
  existsb (N.eqb c) [170; 178; 179; 181; 185; 186; 188; 189; 190]%N ||
  ((192 <=? c) && (c <=? 214))%N || ((216 <=? c) && (c <=? 246))%N ||
  ((248 <=? c) && (c <=? 255))%N.

Definition latin1_isdecimal (c : pychar) : bool := ((48 <=? c) && (c <=? 57))%N.

(** ** PDF generation (src/app.py, lines 128-195)

    The reportlab canvas is modelled by the sequence of calls made on it;
    the nested functions share the cursor [y] ([nonlocal y]) and the canvas
    [c], threaded here by a state monad whose failure is an exception. *)

Inductive event :=
| SetFont (name : string) (size : Z)
| DrawString (x y : Z) (text : pystr)
| ShowPage
| Save.

Record canvas_state := mkCanvas {
  cur_y : Z;
  events : list event
}.

Definition M (A : Type) : Type := canvas_state -> option (A * canvas_state).

Definition ret {A} (a : A) : M A := fun s => Some (a, s).

Definition bind {A B} (m : M A) (k : A -> M B) : M B :=
  fun s => match m s with Some (a, s') => k a s' | None => None end.

Notation "x <- m ;; k" := (bind m (fun x => k))
  (at level 61, m at next level, right associativity).
Notation "m ;;; k" := (bind m (fun _ => k))
  (at level 61, right associativity).

Definition get_y : M Z := fun s => Some (cur_y s, s).
Definition set_y (y : Z) : M unit := fun s => Some (tt, mkCanvas y (events s)).
Definition emit (e : event) : M unit :=
  fun s => Some (tt, mkCanvas (cur_y s) (events s ++ [e])).

(** [xs[i]], raising [IndexError] out of range. *)
Definition index {A} (xs : list A) (i : nat) : M A :=
  fun s => match nth_error xs i with Some x => Some (x, s) | None => None end.

Fixpoint for_each {A} (xs : list A) (body : A -> M unit) : M unit :=
  match xs with
  | [] => ret tt
  | x :: xs' => body x ;;; for_each xs' body
  end.

Definition height : Z := 792.   (* letter = (612.0, 792.0) *)
Definition line_height : Z := 14.
Definition BULLET : pychar := 8226%N.   (* U+2022 *)

Section Render.

Variable is_alnum : pychar -> bool.
Variable is_decimal : pychar -> bool.

Let wrap := textwrap_wrap is_alnum is_decimal.

Local Open Scope Z_scope.

Definition heading (text : pystr) : M unit :=
  emit (SetFont "Helvetica-Bold" 15) ;;;
  y <- get_y ;;
  emit (DrawString 40 y text) ;;;
  set_y (y - 25).

(** [if y < 60: c.showPage(); y = height - 50] *)
Definition page_check : M unit :=
  y <- get_y ;;
  if y <? 60 then emit ShowPage ;;; set_y (height - 50) else ret tt.

(** [c.drawString(x, y, text); y -= line_height] *)
Definition draw_line (x : Z) (text : pystr) : M unit :=
  y <- get_y ;;
  emit (DrawString x y text) ;;;
  set_y (y - line_height).

Definition paragraph (text : pystr) : M unit :=
  emit (SetFont "Helvetica" 11) ;;;
  for_each (wrap 100%nat text) (fun line =>
    page_check ;;;
    draw_line 40 line) ;;;
  y <- get_y ;;
  set_y (y - 10).

(** The body of [for item in list_items:] in [bullet_list]. *)
Definition bullet_item (item : pystr) : M unit :=
  let clean_item := py_strip (py_lstrip_chars (lit "*- ") item) in
  let wrapped := wrap 95%nat clean_item in
  page_check ;;;
  w0 <- index wrapped 0%nat ;;
  draw_line 55 (BULLET :: 32%N :: w0) ;;;
  for_each (skipn 1%nat wrapped) (fun sub =>
    page_check ;;;
    draw_line 75 sub).

(** [[line.strip() for line in text.split("\n") if line.strip()]] *)
Definition list_items_of (text : pystr) : list pystr :=
  map py_strip (filter (fun line => negb (is_nil (py_strip line))) (py_split NL text)).

Definition bullet_list (text : pystr) : M unit :=
  emit (SetFont "Helvetica" 11) ;;;
  for_each (list_items_of text) bullet_item ;;;
  y <- get_y ;;
  set_y (y - 10).

Definition generate_pdf_prog (simplified bullets glossary : pystr) : M unit :=
  heading (lit "Simplified PDF Output") ;;;
  heading (lit "1. Simplified Text") ;;;
  paragraph simplified ;;;
  heading (lit "2. Bullet Points Summary") ;;;
  bullet_list bullets ;;;
  heading (lit "3. Glossary") ;;;
  bullet_list glossary ;;;
  emit Save.

(** [generate_pdf]: the calls made on the canvas, or [None] when an
    exception escapes (it is caught by the handler of the simplify
    button). *)
Definition generate_pdf (simplified bullets glossary : pystr) : option (list event) :=
  match generate_pdf_prog simplified bullets glossary (mkCanvas (height - 50) []) with
  | Some (_, s) => Some (events s)
  | None => None
  end.

End Render.

(** ** Reference layouts for the renderer's claims *)

(** Lines [(x, text)] drawn one below the other from cursor [y], the
    page-break rule ([y < 60]: new page, cursor back to [height - 50])
    applied before each line: the canvas calls and the final cursor. *)
Fixpoint layout_lines (ls : list (Z * pystr)) (y : Z) : list event * Z :=
  match ls with
  | [] => ([], y)
  | (x, l) :: r =>
      let '(pre, y1) :=
        if (y <? 60)%Z then ([ShowPage], (height - 50)%Z) else ([], y) in
      let '(evs, y2) := layout_lines r (y1 - line_height)%Z in
      (pre ++ DrawString x y1 l :: evs, y2)
  end.

(** A wrapped bullet item: the first line with the bullet glyph at the
    shallow indent, the continuation lines at the deeper one. *)
Definition bullet_layout (w0 : pystr) (rest : list pystr) : list (Z * pystr) :=
  (55%Z, BULLET :: 32%N :: w0) :: map (fun l => (75%Z, l)) rest.

(** A character that [strip] or [lstrip("*- ")] may remove. *)
Definition marker_or_space (c : pychar) : bool :=
  existsb (N.eqb c) (lit "*- ") || is_py_space c.

Definition has_item_text (line : pystr) : bool :=
  existsb (fun c => negb (marker_or_space c)) line.

(** Every line of the text that is not blank has a character that is
    neither a list marker nor Python whitespace. *)
Definition bullets_ok (text : pystr) : bool :=
  forallb (fun line => is_nil (py_strip line) || has_item_text line) (py_split NL text).

(** [n + 1] copies of the word [abcd] separated by single spaces. *)
Definition sample_words (n : nat) : pystr :=
  concat (repeat (lit "abcd ") n) ++ lit "abcd".

(** The words of a text, cut at [textwrap]'s whitespace ([s.split()]
    when the text holds no other Python whitespace). *)
Fixpoint words_go (cur : pystr) (s : pystr) : list pystr :=
  match s with
  | [] => if is_nil cur then [] else [rev cur]
  | c :: s' =>
      if is_tw_space c then (if is_nil cur then [] else [rev cur]) ++ words_go [] s'
      else words_go (c :: cur) s'
  end.

Definition words_of (s : pystr) : list pystr := words_go [] s.

(** Texts without hyphens whose only Python whitespace is [textwrap]'s. *)
Definition plain_char (c : pychar) : bool :=
  is_tw_space c || negb (is_py_space c) && negb (N.eqb c HYPHEN).

Definition plain_text (t : pystr) : bool := forallb plain_char t.

(** A 100-column paragraph of 45 words of 100 letters. *)
Definition word100 : pystr := repeat 97%N 100.
Definition long_simplified : pystr := concat (repeat (word100 ++ [32%N]) 44) ++ word100.

(** Chunk invariants of [_wrap_chunks]: every chunk is a non-empty run of
    whitespace or of non-whitespace no longer than the width, a word never
    follows a word, and no chunk holds other Python whitespace. *)
Definition is_ws_chunk (ch : pystr) : bool := forallb is_tw_space ch.
Definition is_word_chunk (ch : pystr) : bool := forallb (fun c => negb (is_tw_space c)) ch.
Definition visible_ok (c : pychar) : bool := is_tw_space c || negb (is_py_space c).

Definition chunk_ok (w : nat) (ch : pystr) : bool :=
  negb (is_nil ch) &&
  (is_ws_chunk ch || is_word_chunk ch && (length ch <=? w)) &&
  forallb visible_ok ch.

Fixpoint alternating (chs : list pystr) : bool :=
  match chs with
  | a :: ((b :: _) as r) => (is_ws_chunk a || is_ws_chunk b) && alternating r
  | _ => true
  end.

Definition chunks_inv (w : nat) (chs : list pystr) : bool :=
  forallb (chunk_ok w) chs && alternating chs.

Definition word_chunks (chs : list pystr) : list pystr :=
  filter (fun ch => negb (is_ws_chunk ch)) chs.

(** Non-whitespace for [textwrap], and the shape of one chunk. *)
Definition nsp (c : pychar) : bool := negb (is_tw_space c).
Definition chunk_shape (ch : pystr) : bool := negb (is_nil ch) && (is_ws_chunk ch || is_word_chunk ch).

(** The words that [textwrap.wrap] never cuts: no hyphen, no longer than
    the width, and not made only of Python whitespace. *)
Definition good_word (w : nat) (x : pystr) : bool :=
  forallb (fun c => nsp c && negb (N.eqb c HYPHEN)) x && (length x <=? w) && negb (blank x).

(** [l1] is a subsequence of [l2]: [l2] has the elements of [l1] in the
    same order, and maybe more. *)
Inductive subseq : list pystr -> list pystr -> Prop :=
| subseq_nil l : subseq [] l
| subseq_take x l1 l2 : subseq l1 l2 -> subseq (x :: l1) (x :: l2)
| subseq_skip x l1 l2 : subseq l1 l2 -> subseq l1 (x :: l2).

(** [iso w lo chs]: the chunks of [chs] that are short words with a
    whitespace chunk or an end of the list on each side; [lo] says whether
    the left side of the first chunk is such, [right_ok] checks the right
    side. *)
Definition right_ok (chs : list pystr) : bool :=
  match chs with [] => true | ch :: _ => is_ws_chunk ch end.

Fixpoint iso (w : nat) (lo : bool) (chs : list pystr) : list pystr :=
  match chs with
  | [] => []
  | ch :: rest =>
      (if lo && good_word w ch && right_ok rest then [ch] else []) ++ iso w (is_ws_chunk ch) rest
  end.

(** ** The command-line script of src/pdf_text_extractor.py (lines 22-51) *)

Definition SLASH : pychar := 47%N.
Definition DOT : pychar := 46%N.

(** [os.path.splitext(p)] on POSIX: [genericpath._splitext(p, '/', None, '.')].
    [sepIndex] and [dotIndex] are the [rfind]s of ['/'] and ['.'] ([None] for
    [-1]), [filenameIndex] starts at [sepIndex + 1]; the [while] loop returns
    at the first character of [p[filenameIndex:dotIndex]] that is not a dot,
    and falls through to [return p, p[:0]] when there is none. *)
Definition splitext (p : pystr) : pystr * pystr :=
  let filenameIndex :=
    match rfind SLASH p (length p) with Some i => S i | None => 0 end in
  match rfind DOT p (length p) with
  | Some dotIndex =>
      if (filenameIndex <=? dotIndex) &&
         existsb (fun c => negb (N.eqb c DOT))
                 (firstn (dotIndex - filenameIndex) (skipn filenameIndex p))
      then (firstn dotIndex p, skipn dotIndex p)
      else (p, [])
  | None => (p, [])
  end.

(** [os.path.splitext(file_path)[0] + "_extracted.txt"] *)
Definition output_file_of (file_path : pystr) : pystr :=
  fst (splitext file_path) ++ lit "_extracted.txt".

(** [preview = text[:500].strip()], then [+= "..."] when [len(text) > 500]. *)
Definition preview_of (text : pystr) : pystr :=
  let preview := py_strip (firstn 500 text) in
  if 500 <? length text then preview ++ lit "..." else preview.

(** What [open(output_file, "w", encoding="utf-8")] and [f.write(text)] do:
    [open] raises (nothing is created), [f.write] raises (the file has been
    created, or truncated, by [open]), or both complete. *)
Inductive write_outcome :=
| OpenRaises
| WriteRaises
| Written.

(** The script's observable effects: console output ([input] prompt,
    [print]), files created by [open(..., "w")] and written, and [exit()]. *)
Inductive cli_event :=
| CliInput (prompt : pystr)
| CliPrint (line : pystr)
| CliPrintError                  (* an f-string showing the exception *)
| CliCreate (path : pystr)
| CliWrite (path contents : pystr)
| CliExit.

Definition CROSS_MARK : pychar := 10060%N.   (* U+274C *)
Definition CHECK_MARK : pychar := 9989%N.    (* U+2705 *)

(** The [if __name__ == "__main__":] block; [file_path] is what [input]
    returns, [path_exists] what [os.path.exists(file_path)] returns, [pdf]
    what [pdfplumber.open(file_path)] does, [write] what the [with open]
    block does. *)
Definition extractor_main (file_path : pystr) (path_exists : bool)
  (pdf : pdf_source) (write : write_outcome) : list cli_event :=
  CliPrint (lit "=== PDF TEXT EXTRACTOR ===") ::
  CliInput (lit "Enter the path to your PDF file: ") ::
  if negb path_exists then
    [CliPrint (CROSS_MARK :: lit " File not found. Please check the path."); CliExit]
  else
    match PdfTextExtractor.extract_pdf_text pdf with
    | None =>
        (* the [print] in the [except] of [extract_pdf_text] *)
        [CliPrintError; CliPrint (CROSS_MARK :: lit " Could not extract text."); CliExit]
    | Some text =>
        let output_file := output_file_of file_path in
        match write with
        | OpenRaises => [CliPrintError]
        | WriteRaises => [CliCreate output_file; CliPrintError]
        | Written =>
            [CliCreate output_file; CliWrite output_file text;
             CliPrint (CHECK_MARK :: lit " Text successfully saved to: " ++ output_file)]
        end ++
        [CliPrint (NL ++ lit "--- Preview (first 500 characters) ---");
         CliPrint (preview_of text);
         CliPrint (NL ++ lit "Done!")]
    end.

(** ** [base64.b64encode] (src/app.py, line 288) *)

Definition b64_alphabet : pystr :=
  lit "ABCDEFGHIJKLMNOPQRSTUVWXYZabcdefghijklmnopqrstuvwxyz0123456789+/".
Definition PAD : pychar := 61%N.

Definition b64_char (v : N) : pychar := nth (N.to_nat v) b64_alphabet PAD.

(** [base64.b64encode(data).decode('utf-8')] ([binascii.b2a_base64] without
    the newline; the output is ASCII, so decoding keeps the code points):
    each group of three bytes gives four characters, a last group of one or
    two bytes is padded with ['=']. *)
Fixpoint b64encode (data : list N) : pystr :=
  match data with
  | a :: b :: c :: rest =>
      b64_char (N.shiftr a 2) ::
      b64_char (N.lor (N.shiftl (N.land a 3) 4) (N.shiftr b 4)) ::
      b64_char (N.lor (N.shiftl (N.land b 15) 2) (N.shiftr c 6)) ::
      b64_char (N.land c 63) :: b64encode rest
  | [a; b] =>
      [b64_char (N.shiftr a 2);
       b64_char (N.lor (N.shiftl (N.land a 3) 4) (N.shiftr b 4));
       b64_char (N.shiftl (N.land b 15) 2); PAD]
  | [a] => [b64_char (N.shiftr a 2); b64_char (N.shiftl (N.land a 3) 4); PAD; PAD]
  | [] => []
  end.

(** The decoding a reader of the [data:] URI applies (RFC 4648, padded
    groups only at the end), to state that the preview keeps the bytes. *)
Fixpoint b64_value_go (c : pychar) (i : N) (alpha : pystr) : option N :=
  match alpha with
  | [] => None
  | d :: alpha' => if N.eqb c d then Some i else b64_value_go c (N.succ i) alpha'
  end.

Definition b64_value (c : pychar) : option N := b64_value_go c 0 b64_alphabet.

Fixpoint b64decode (s : pystr) : option (list N) :=
  match s with
  | [] => Some []
  | c1 :: c2 :: c3 :: c4 :: rest =>
      let* v1 := b64_value c1 in
      let* v2 := b64_value c2 in
      let a := (v1 * 4 + v2 / 16)%N in
      if N.eqb c3 PAD then
        if N.eqb c4 PAD && is_nil rest then Some [a] else None
      else
        let* v3 := b64_value c3 in
        let b := ((v2 mod 16) * 16 + v3 / 4)%N in
        if N.eqb c4 PAD then
          if is_nil rest then Some [a; b] else None
        else
          let* v4 := b64_value c4 in
          let c := ((v3 mod 4) * 64 + v4)%N in
          let* rest' := b64decode rest in
          Some (a :: b :: c :: rest')
  | _ => None
  end.

(** ** The Streamlit script of src/app.py (lines 94-104 and 202-370)

    One run of the script from top to bottom, as Streamlit performs it after
    every interaction: the session state it leaves and what it shows. *)

(** An [UploadedFile]: its [name], its bytes ([read()]) and what
    [pdfplumber.open] does on it. *)
Record upload := mkUpload {
  up_name : pystr;
  up_bytes : list N;
  up_pdf : pdf_source
}.

Record session := mkSession {
  raw_text : pystr;
  uploaded_file_obj : option upload;
  chat_answer : pystr
}.

(** The state the initialisation of lines 94-104 gives a new session. *)
Definition session_init : session := mkSession [] None [].

Definition pystr_eqb (a b : pystr) : bool :=
  if list_eq_dec N.eq_dec a b then true else false.

(** What a run shows, and the calls [model.generate_content(p)]. *)
Inductive ui_event :=
| UiSuccess                       (* st.success, line 218 *)
| UiError                         (* st.error *)
| UiSections (b : SectionBundle)  (* the three st.markdown, lines 252-261 *)
| UiDownload (pdf : list event)   (* st.download_button, line 265 *)
| UiPreview (base64_pdf : pystr)  (* the iframe of line 290 *)
| UiInfo                          (* st.info, line 294 *)
| UiWarning                       (* st.warning, line 307 *)
| UiModelCall (prompt : pystr)
| UiAnswer (answer : pystr)       (* lines 367-370 *)
| UiRerun.                        (* st.rerun(), line 321 *)

(** The f-string [prompt] of lines 226-241 ([U+2013] written as its code
    point). *)
Definition simplify_prompt (raw_text : pystr) : pystr :=
  lit "
Read the PDF content below and rewrite it into EXACTLY THREE SECTIONS.

=== SECTION 1: SIMPLIFIED TEXT ===
Write 2" ++ [8211%N] ++ lit "4 detailed paragraphs. The language should be simple, clear, and student-friendly.

=== SECTION 2: BULLET POINT SUMMARY ===
Write 5" ++ [8211%N] ++ lit "10 comprehensive bullet points that cover the main topics.

=== SECTION 3: GLOSSARY ===
Create a list of 5" ++ [8211%N] ++ lit "10 key terms from the document with short, clear definitions. Format each entry as:
**Term**: Meaning

PDF CONTENT:
" ++
  raw_text ++ lit "
".

(** The f-string [chat_prompt] of lines 333-359 (the double quotes written
    as code point 34). *)
Definition chat_prompt (raw_text question : pystr) : pystr :=
  lit "
You are an expert teacher and document summarizer. Your goal is to provide a comprehensive, educational, and high-quality answer to the user's question, strictly based on the provided PDF content.

**Answer Formatting Rules:**

1.  **Detail and Length:** Do not limit the length of your response. Provide a detailed answer that fully addresses the question.
2.  **Educational Style:** Use clear, simple language suitable for a student. Break down complex topics into digestible parts.
3.  **Structure (Mandatory):**
    * **Start** with a clear, concise introductory summary.
    * **Use bold subheadings** (e.g., **Key Features**, **In Simple Terms**, **Example**) to structure the body of your response.
    * **Use Markdown bullet points (-) or numbered lists (1.)** for any lists, types, steps, or features.
4.  **Analogy/Example:** For any concept or definition, actively try to provide a simple, real-world analogy or example to aid understanding.

**Source Constraint:**
- You MUST only use the PDF content provided below.
- Do NOT output headings like " ++ [34%N] ++ lit "Answer:" ++ [34%N] ++ lit " or similar.
- Do NOT copy messy formatting from the PDF.

PDF CONTENT:
" ++
  raw_text ++
  lit "

QUESTION:
" ++
  question ++
  lit "

If the answer is not found in the PDF, reply: 
" ++ [34%N] ++ lit "Sorry, this specific information is not available in the document you provided." ++ [34%N] ++ lit "
".

Section AppScript.

Variable is_alnum : pychar -> bool.
Variable is_decimal : pychar -> bool.
(** [model.generate_content(p).text]; [None] when it raises. *)
Variable generate_content : pystr -> option pystr.

(** The [st.error] inside [extract_pdf_text] (line 121). *)
Definition extract_errors (f : pdf_source) : list ui_event :=
  match f with
  | OpenFails => [UiError]
  | Pdf pages => match extract_pages pages [] with Some _ => [] | None => [UiError] end
  end.

(** Lines 207-218: a file whose name differs from the stored one (or the
    first file) is stored and its text extracted. *)
Definition on_upload (ss : session) (uploaded_file : option upload)
  : session * list ui_event :=
  match uploaded_file with
  | None => (ss, [])
  | Some f =>
      if match uploaded_file_obj ss with
         | None => true
         | Some o => negb (pystr_eqb (up_name o) (up_name f))
         end
      then (mkSession (App.extract_pdf_text (up_pdf f)) (Some f) (chat_answer ss),
            extract_errors (up_pdf f) ++ [UiSuccess])
      else (ss, [])
  end.

(** Lines 224-268, the body of [if st.button("Simplify PDF", ...)]: the
    [try] block, any exception ending it with [st.error]. *)
Definition simplify_handler (raw_text : pystr) : list ui_event :=
  let prompt := simplify_prompt raw_text in
  UiModelCall prompt ::
  match generate_content prompt with
  | None => [UiError]
  | Some output =>
      match split_sections output with
      | None => [UiError]
      | Some b =>
          UiSections b ::
          match generate_pdf is_alnum is_decimal (simplified b) (bullets b) (glossary b) with
          | None => [UiError]
          | Some pdf_file => [UiDownload pdf_file]
          end
      end
  end.

(** Lines 323-365: [if ask and question.strip():], the second check of
    [raw_text], and the [try] around the call. *)
Definition chat_handler (ss : session) (question : pystr) (ask : bool)
  : session * list ui_event :=
  if ask && negb (is_nil (py_strip question)) then
    let '(ev, ask) := if is_nil (raw_text ss) then ([UiError], false) else ([], ask) in
    if ask then
      let p := chat_prompt (raw_text ss) question in
      match generate_content p with
      | Some reply => (mkSession (raw_text ss) (uploaded_file_obj ss) reply, ev ++ [UiModelCall p])
      | None => (ss, ev ++ [UiModelCall p; UiError])
      end
    else (ss, ev)
  else (ss, []).

(** One run.  [uploaded_file] is what [st.file_uploader] returns,
    [simplify], [ask] and [clear] what the three [st.button]s return, and
    [question] what [st.text_input] returns. *)
Definition app_run (ss : session) (uploaded_file : option upload)
  (simplify : bool) (question : pystr) (ask clear : bool) : session * list ui_event :=
  let '(ss1, ev1) := on_upload ss uploaded_file in
  let ev2 :=
    match uploaded_file with
    | Some _ => if simplify then simplify_handler (raw_text ss1) else []
    | None => []
    end in
  let ev3 :=
    match uploaded_file_obj ss1 with
    | Some o => [UiPreview (b64encode (up_bytes o))]
    | None => [UiInfo]
    end in
  let ev4 := if is_nil (raw_text ss1) then [UiWarning] else [] in
  if clear then
    (mkSession (raw_text ss1) (uploaded_file_obj ss1) [], ev1 ++ ev2 ++ ev3 ++ ev4 ++ [UiRerun])
  else
    let '(ss2, ev5) := chat_handler ss1 question ask in
    let ev6 := if is_nil (chat_answer ss2) then [] else [UiAnswer (chat_answer ss2)] in
    (ss2, ev1 ++ ev2 ++ ev3 ++ ev4 ++ ev5 ++ ev6).

End AppScript.

(** ** Reference definitions for the renderer's further properties *)

(** The four headings [generate_pdf] draws. *)
Definition pdf_headings : list pystr :=
  [lit "Simplified PDF Output"; lit "1. Simplified Text";
   lit "2. Bullet Points Summary"; lit "3. Glossary"].

(** A line of a list section that is not blank and, once stripped, holds
    nothing but the characters ['*'], ['-'] and [' '] (as a Markdown rule
    [---] or [***] does). *)
Definition marker_only (line : pystr) : bool :=
  let s := py_strip line in
  negb (is_nil s) && forallb (fun c => existsb (N.eqb c) (lit "*- ")) s.

(** A canvas call drawn at or above the bottom margin, or a heading. *)
Definition high_or_heading (e : event) : Prop :=
  match e with
  | DrawString _ y t => (60 <= y)%Z \/ In t pdf_headings
  | _ => True
  end.

(** [m], when it completes, only appends canvas calls satisfying [P]. *)
Definition appends (P : event -> Prop) (m : M unit) : Prop :=
  forall s s', m s = Some (tt, s') ->
    exists new, events s' = events s ++ new /\ Forall P new.

(** * Proofs *)

(** ** Searching for a separator *)

Lemma startswith_app (p t : pystr) : startswith p (p ++ t) = true.
Proof. induction p as [|c p IH]; simpl; [reflexivity|]. rewrite N.eqb_refl, IH. reflexivity. Qed.

Lemma startswith_spec (p s : pystr) :
  startswith p s = true -> s = p ++ skipn (length p) s.
Proof.
  revert s; induction p as [|c p IH]; intros s H; simpl; [reflexivity|].
  destruct s as [|d s]; simpl in H; [discriminate|].
  apply andb_prop in H as [H1 H2]. apply N.eqb_eq in H1; subst.
  f_equal. apply IH, H2.
Qed.

Lemma skipn_length_app (p t : pystr) : skipn (length p) (p ++ t) = t.
Proof. induction p; simpl; auto. Qed.

Lemma partition_first_spec (sep s a b : pystr) :
  partition_first sep s = Some (a, b) -> s = a ++ sep ++ b.
Proof.
  revert a b; induction s as [|c s IH]; intros a b H; simpl in H.
  - destruct (startswith sep []) eqn:E; [|discriminate].
    injection H as <- <-. simpl. apply startswith_spec in E. exact E.
  - destruct (startswith sep (c :: s)) eqn:E.
    + injection H as <- <-. apply startswith_spec in E. exact E.
    + destruct (partition_first sep s) as [[a' b']|] eqn:E'; [|discriminate].
      injection H as <- <-. simpl. f_equal. apply IH. reflexivity.
Qed.

Lemma partition_first_unfold (sep s : pystr) :
  partition_first sep s =
  if startswith sep s then Some ([], skipn (length sep) s)
  else
    match s with
    | [] => None
    | c :: s' =>
        match partition_first sep s' with
        | Some (a, b) => Some (c :: a, b)
        | None => None
        end
    end.
Proof. destruct s; reflexivity. Qed.

Lemma partition_first_occ (sep x t : pystr) :
  occ_free sep x (sep ++ t) = true -> partition_first sep (x ++ sep ++ t) = Some (x, t).
Proof.
  induction x as [|c x IH]; intros H; simpl.
  - rewrite partition_first_unfold, startswith_app, skipn_length_app. reflexivity.
  - simpl in H. apply andb_prop in H as [H1 H2].
    apply negb_true_iff in H1. rewrite H1, IH by exact H2. reflexivity.
Qed.

Lemma partition_first_none_iff (sep s : pystr) :
  partition_first sep s = None <-> str_in sep s = false.
Proof.
  induction s as [|c s IH]; simpl.
  - destruct (startswith sep []); simpl; split; intros; congruence.
  - destruct (startswith sep (c :: s)); simpl; [split; intros; congruence|].
    destruct (partition_first sep s) as [[a b]|]; split; intros H;
      try discriminate; try reflexivity; apply IH in H; congruence.
Qed.

Lemma partition_first_free (sep s : pystr) :
  sep <> [] -> occ_free sep s [] = true -> partition_first sep s = None.
Proof.
  intros Hsep. induction s as [|c s IH]; intros H; simpl.
  - destruct sep; [congruence|reflexivity].
  - simpl in H. rewrite app_nil_r in H. apply andb_prop in H as [H1 H2].
    apply negb_true_iff in H1. rewrite H1, IH by exact H2. reflexivity.
Qed.

Lemma occ_free_app (sep x y t : pystr) :
  occ_free sep (x ++ y) t = occ_free sep x (y ++ t) && occ_free sep y t.
Proof.
  induction x as [|c x IH]; simpl; [reflexivity|].
  rewrite IH, app_assoc, andb_assoc. reflexivity.
Qed.

(** [split] and [replace] through the first occurrence. *)
Lemma py_split_0 (sep s : pystr) :
  nth_error (py_split sep s) 0 = Some (before_first sep s).
Proof.
  unfold py_split, before_first; simpl.
  destruct (partition_first sep s) as [[a b]|]; reflexivity.
Qed.

Lemma split_go_0 (f : nat) (sep s : pystr) :
  nth_error (split_go (S f) sep s) 0 = Some (before_first sep s).
Proof.
  unfold before_first; simpl. destruct (partition_first sep s) as [[a b]|]; reflexivity.
Qed.

Lemma py_split_1 (sep s : pystr) : sep <> [] ->
  nth_error (py_split sep s) 1 =
  match partition_first sep s with
  | Some (_, b) => Some (before_first sep b)
  | None => None
  end.
Proof.
  intros Hsep. unfold py_split; simpl.
  destruct (partition_first sep s) as [[a b]|] eqn:E; [|reflexivity].
  apply partition_first_spec in E. subst s.
  destruct sep as [|c sep]; [congruence|].
  rewrite length_app. simpl. rewrite Nat.add_succ_r. apply split_go_0.
Qed.

(** ** Section splitting through first occurrences *)

Lemma split_sections_eq (output : pystr) :
  split_sections output =
  match partition_first SEC2 output, partition_first SEC3 output with
  | Some (_, after2), Some (_, after3) =>
      Some (mkBundle
              (py_strip (py_replace SEC1 [] (before_first SEC2_MARK output)))
              (py_strip (before_first SEC3_MARK (before_first SEC2 after2)))
              (py_strip (before_first SEC3 after3)))
  | _, _ => None
  end.
Proof.
  unfold split_sections.
  rewrite py_split_0, py_split_1 by discriminate.
  destruct (partition_first SEC2 output) as [[b2 a2]|]; [|reflexivity].
  rewrite py_split_0, py_split_1 by discriminate.
  destruct (partition_first SEC3 output) as [[b3 a3]|]; reflexivity.
Qed.

Ltac unfold_delims :=
  unfold EQ_SIGN in *;
  let v1 := eval vm_compute in SEC1 in change SEC1 with v1 in *;
  let v2 := eval vm_compute in SEC2 in change SEC2 with v2 in *;
  let v3 := eval vm_compute in SEC3 in change SEC3 with v3 in *;
  let m2 := eval vm_compute in SEC2_MARK in change SEC2_MARK with m2 in *;
  let m3 := eval vm_compute in SEC3_MARK in change SEC3_MARK with m3 in *.

(** No occurrence of a marker starts inside a delimiter line followed by
    what [delim_follow] admits. *)
Ltac delim_free_tac :=
  intros u Hu; destruct u as [|c u]; [vm_compute; reflexivity|];
  unfold delim_follow in Hu; apply orb_true_iff in Hu as [Hu|Hu];
  [ apply andb_prop in Hu as [E1 E2]; apply negb_true_iff in E1, E2;
    rewrite N.eqb_sym in E1, E2; unfold_delims;
    cbn [occ_free startswith app]; rewrite ?E1, ?E2; vm_compute; reflexivity
  | apply startswith_spec in Hu; rewrite Hu; unfold_delims; vm_compute; reflexivity ].

Lemma occ_free_SEC2_MARK_SEC1 :
  forall u, delim_follow u = true -> occ_free SEC2_MARK SEC1 u = true.
Proof. delim_free_tac. Qed.

Lemma occ_free_SEC2_SEC1 :
  forall u, delim_follow u = true -> occ_free SEC2 SEC1 u = true.
Proof. delim_free_tac. Qed.

Lemma occ_free_SEC2_SEC3 :
  forall u, delim_follow u = true -> occ_free SEC2 SEC3 u = true.
Proof. delim_free_tac. Qed.

Lemma occ_free_SEC3_SEC1 :
  forall u, delim_follow u = true -> occ_free SEC3 SEC1 u = true.
Proof. delim_free_tac. Qed.

Lemma occ_free_SEC3_SEC2 :
  forall u, delim_follow u = true -> occ_free SEC3 SEC2 u = true.
Proof. delim_free_tac. Qed.

Lemma startswith_app_r (p s r : pystr) :
  startswith p s = true -> startswith p (s ++ r) = true.
Proof.
  revert s; induction p as [|c p IH]; intros [|d s] H; simpl in *; try easy.
  apply andb_prop in H as [H1 H2]. rewrite H1, (IH s H2). reflexivity.
Qed.

Lemma plain_follow_end (x : pystr) : plain_body x = true -> delim_follow x = true.
Proof.
  destruct x as [|c x]; intros H; [reflexivity|].
  unfold plain_body in H. apply andb_prop in H as [_ H].
  unfold delim_follow. rewrite H. reflexivity.
Qed.

Lemma plain_follow_delim (x d r : pystr) :
  plain_body x = true -> startswith (lit "=== ") d = true ->
  delim_follow (x ++ d ++ r) = true.
Proof.
  intros Hx Hd. destruct x as [|c x].
  - simpl. destruct d as [|e d]; [discriminate|].
    unfold delim_follow. apply orb_true_iff. right. apply startswith_app_r, Hd.
  - apply plain_follow_end in Hx. unfold delim_follow in Hx |- *.
    rewrite <- app_comm_cons. apply orb_true_iff in Hx as [H|H]; apply orb_true_iff;
      [left; exact H | right; apply (startswith_app_r _ (c :: x)), H].
Qed.

Lemma SEC2_split : SEC2 = SEC2_MARK ++ skipn (length SEC2_MARK) SEC2.
Proof. reflexivity. Qed.
Lemma SEC3_split : SEC3 = SEC3_MARK ++ skipn (length SEC3_MARK) SEC3.
Proof. reflexivity. Qed.
Lemma delim_starts :
  startswith (lit "=== ") SEC2 = true /\ startswith (lit "=== ") SEC3 = true /\
  startswith (lit "=== ") SEC2_MARK = true.
Proof. vm_compute. auto. Qed.

(** A separator starting with a delimiter's [=== ] cannot start inside a
    plain body followed by the end of the blob or by a delimiter line. *)
Lemma occ_free_no_double_eq (sep x t : pystr) :
  startswith (lit "=== ") sep = true -> no_double_eq x = true ->
  delim_start t = true -> occ_free sep x t = true.
Proof.
  intros Hs Hx Ht. apply startswith_spec in Hs.
  remember (skipn (length (lit "=== ")) sep) as sep'. clear Heqsep'. subst sep.
  unfold delim_start in Ht.
  induction x as [|c x IH]; [reflexivity|].
  assert (Hx' : no_double_eq x = true)
    by (destruct x as [|d x]; [reflexivity|]; simpl in Hx;
        apply andb_prop in Hx as [_ Hx]; exact Hx).
  cbn [occ_free]. rewrite (IH Hx'), andb_true_r. apply negb_true_iff.
  unfold EQ_SIGN in *. cbn [lit list_ascii_of_string map app startswith].
  destruct (N.eqb_spec (N_of_ascii "="%char) c) as [Ec|Ec]; [|reflexivity].
  subst c. rewrite andb_true_l. destruct x as [|d x].
  - simpl app. destruct t as [|e t]; [reflexivity|].
    apply orb_true_iff in Ht as [Ht|Ht]; [discriminate|].
    apply startswith_spec in Ht. injection Ht as -> Ht. rewrite Ht. reflexivity.
  - cbn [app].
    destruct (N.eqb_spec (N_of_ascii "="%char) d) as [Ed|Ed]; [|reflexivity].
    subst d. simpl in Hx. discriminate.
Qed.

Lemma plain_free_sep (sep x t : pystr) :
  startswith (lit "=== ") sep = true -> plain_body x = true ->
  delim_start t = true -> occ_free sep x t = true.
Proof.
  intros Hs Hx Ht. apply occ_free_no_double_eq; [exact Hs| |exact Ht].
  unfold plain_body in Hx. apply andb_prop in Hx as [Hx _]. exact Hx.
Qed.

Ltac plain_tac := first [reflexivity | assumption].

Lemma py_replace_leading (old a : pystr) :
  old <> [] -> partition_first old a = None -> py_replace old [] (old ++ a) = a.
Proof.
  intros Hold Ha. unfold py_replace.
  assert (E : partition_first old (old ++ a) = Some ([], a))
    by exact (partition_first_occ old [] a eq_refl).
  cbn [replace_go]. rewrite E.
  destruct old as [|c old]; [congruence|].
  cbn [length app replace_go]. rewrite Ha. reflexivity.
Qed.

(** ** Claim C6 *)

(** C6: for a blob made of the three delimiters in order, each followed by
    its body ([A], [B], [C], bodies with no two consecutive [=] that do not
    start with [=] or a space), the parser returns [{simplified: A, bullets: B, glossary: C}]
    with surrounding whitespace stripped; the section-1 label is removed. *)
Theorem split_sections_three_bodies (A B C : pystr) :
  plain_body A = true -> plain_body B = true -> plain_body C = true ->
  split_sections (SEC1 ++ A ++ SEC2 ++ B ++ SEC3 ++ C) =
  Some (mkBundle (py_strip A) (py_strip B) (py_strip C)).
Proof.
  intros HA HB HC.
  destruct delim_starts as (D2 & D3 & M2).
  assert (P2 : partition_first SEC2 (SEC1 ++ A ++ SEC2 ++ B ++ SEC3 ++ C)
               = Some (SEC1 ++ A, B ++ SEC3 ++ C)).
  { rewrite app_assoc. apply partition_first_occ.
    rewrite occ_free_app, occ_free_SEC2_SEC1 by (apply plain_follow_delim; assumption).
    rewrite (plain_free_sep SEC2 A) by plain_tac. reflexivity. }
  assert (P3 : partition_first SEC3 (SEC1 ++ A ++ SEC2 ++ B ++ SEC3 ++ C)
               = Some (SEC1 ++ A ++ SEC2 ++ B, C)).
  { replace (SEC1 ++ A ++ SEC2 ++ B ++ SEC3 ++ C)
      with ((SEC1 ++ A ++ SEC2 ++ B) ++ SEC3 ++ C) by (rewrite <- !app_assoc; reflexivity).
    apply partition_first_occ.
    rewrite !occ_free_app.
    rewrite occ_free_SEC3_SEC1 by (rewrite <- !app_assoc; apply plain_follow_delim; assumption).
    rewrite occ_free_SEC3_SEC2 by (apply plain_follow_delim; assumption).
    rewrite !(plain_free_sep SEC3) by plain_tac. reflexivity. }
  rewrite split_sections_eq, P2, P3. f_equal. f_equal.
  - (* simplified *)
    unfold before_first.
    replace (SEC1 ++ A ++ SEC2 ++ B ++ SEC3 ++ C)
      with ((SEC1 ++ A) ++ SEC2_MARK ++ (skipn (length SEC2_MARK) SEC2 ++ B ++ SEC3 ++ C))
      by (rewrite <- !app_assoc; reflexivity).
    rewrite partition_first_occ.
    + rewrite py_replace_leading; [reflexivity|discriminate|].
      apply partition_first_free; [discriminate|].
      apply plain_free_sep; plain_tac.
    + rewrite occ_free_app, occ_free_SEC2_MARK_SEC1 by (apply plain_follow_delim; assumption).
      rewrite (plain_free_sep SEC2_MARK A) by plain_tac. reflexivity.
  - (* bullets *)
    assert (N2 : before_first SEC2 (B ++ SEC3 ++ C) = B ++ SEC3 ++ C).
    { unfold before_first. rewrite partition_first_free; [reflexivity|discriminate|].
      rewrite !occ_free_app, occ_free_SEC2_SEC3 by (rewrite app_nil_r; apply plain_follow_end, HC).
      rewrite !(plain_free_sep SEC2) by plain_tac. reflexivity. }
    rewrite N2. unfold before_first.
    rewrite SEC3_split, <- app_assoc, partition_first_occ; [reflexivity|].
    apply plain_free_sep; plain_tac.
  - (* glossary *)
    unfold before_first. rewrite partition_first_free; [reflexivity|discriminate|].
    apply plain_free_sep; plain_tac.
Qed.

(** C6 holds at a concrete blob with bodies surrounded by newlines. *)
Lemma split_sections_three_bodies_witness :
  split_sections (SEC1 ++ (NL ++ lit "A" ++ NL) ++ SEC2 ++ (NL ++ lit "B" ++ NL) ++
                  SEC3 ++ (NL ++ lit "C" ++ NL))
  = Some (mkBundle (lit "A") (lit "B") (lit "C")).
Proof.
  rewrite (split_sections_three_bodies (NL ++ lit "A" ++ NL) (NL ++ lit "B" ++ NL)
             (NL ++ lit "C" ++ NL)) by reflexivity.
  reflexivity.
Defined.

(** ** Claim C1 *)

(** C1 (counterexample): a blob missing the section-3 delimiter, and one
    missing the section-2 delimiter, make the parser raise [IndexError]
    instead of yielding a placeholder. *)
Lemma split_sections_missing_delimiter_raises :
  split_sections (SEC1 ++ lit "A" ++ SEC2 ++ lit "B") = None /\
  split_sections (SEC1 ++ lit "A" ++ SEC3 ++ lit "C") = None.
Proof. split; vm_compute; reflexivity. Qed.

(** C1 (amended): there is no placeholder; the parser returns a bundle
    exactly when both the full section-2 and the full section-3 delimiters
    occur in the blob, and raises [IndexError] otherwise. *)
Theorem split_sections_none_iff (output : pystr) :
  split_sections output = None <->
  str_in SEC2 output = false \/ str_in SEC3 output = false.
Proof.
  rewrite split_sections_eq, <- !partition_first_none_iff.
  destruct (partition_first SEC2 output) as [[b2 a2]|];
  destruct (partition_first SEC3 output) as [[b3 a3]|];
    split; intros H; try discriminate; try reflexivity;
    try (left; reflexivity); try (right; reflexivity);
    destruct H; discriminate.
Qed.

(** ** Claim C9 *)

(** C9 (counterexample): with the section-2 and section-3 delimiters each
    repeated, the bullets field stops at the second section-2 delimiter
    and the glossary field at the second section-3 delimiter, not at the
    first section-3 marker and the end of the blob. *)
Lemma split_sections_duplicates_truncate :
  let blob := SEC2 ++ lit "x" ++ SEC2 ++ lit "y" ++ SEC3 ++ lit "z" ++ SEC3 ++ lit "w" in
  split_sections blob = Some (mkBundle [] (lit "x") (lit "z")) /\
  split_sections blob <>
  Some (mkBundle [] (py_strip (lit "x" ++ SEC2 ++ lit "y"))
                    (py_strip (lit "z" ++ SEC3 ++ lit "w"))).
Proof. split; vm_compute; [reflexivity|discriminate]. Qed.

(** C9 (amended): each field is cut at first occurrences: [simplified] is
    the text before the first section-2 marker with every section-1
    delimiter removed; [bullets] is the text after the first full
    section-2 delimiter, up to the next full section-2 delimiter, then cut
    at its first section-3 marker; [glossary] is the text after the first
    full section-3 delimiter up to the next one; all stripped. *)
Theorem split_sections_first_occurrences (output : pystr) :
  split_sections output =
  match partition_first SEC2 output, partition_first SEC3 output with
  | Some (_, after2), Some (_, after3) =>
      Some (mkBundle
              (py_strip (py_replace SEC1 [] (before_first SEC2_MARK output)))
              (py_strip (before_first SEC3_MARK (before_first SEC2 after2)))
              (py_strip (before_first SEC3 after3)))
  | _, _ => None
  end.
Proof. apply split_sections_eq. Qed.

(** ** Native extraction *)

Lemma extract_pages_acc (pages : list page) (text : pystr) :
  extract_pages pages text =
  if forallb page_ok pages then Some (text ++ native_text pages) else None.
Proof.
  revert text; induction pages as [|p pages IH]; intros text; simpl.
  - rewrite app_nil_r. reflexivity.
  - destruct p as [[[|c s]|]|]; simpl; rewrite ?IH; try reflexivity.
    unfold native_text. simpl.
    destruct (forallb page_ok pages); [|reflexivity].
    rewrite <- !app_assoc. simpl. rewrite <- app_assoc. reflexivity.
Qed.

(** ** Claim C3 *)

(** C3 (counterexample): a page whose extraction raises aborts the whole
    extraction: [App.extract_pdf_text] returns the empty string instead of
    the fragments of the other pages around an empty one, and
    [PdfTextExtractor.extract_pdf_text] returns [None]. *)
Lemma extract_page_failure_aborts :
  let doc := Pdf [Page (Some (lit "a")); PageRaises; Page (Some (lit "b"))] in
  App.extract_pdf_text doc = [] /\
  App.extract_pdf_text doc <> lit "a" ++ NL ++ NL ++ lit "b" /\
  PdfTextExtractor.extract_pdf_text doc = None.
Proof. vm_compute. split; [reflexivity|split; [discriminate|reflexivity]]. Qed.

(** C3 (amended): the pages are read in page order; when no page raises,
    the text is the concatenation, in page order, of every non-empty page
    text followed by a newline (pages without text contribute nothing);
    when a page raises, extraction stops and the result is the empty string
    in src/app.py and [None] in src/pdf_text_extractor.py. *)
Theorem extract_pdf_text_pages (pages : list page) :
  App.extract_pdf_text (Pdf pages) =
    (if forallb page_ok pages then native_text pages else []) /\
  PdfTextExtractor.extract_pdf_text (Pdf pages) =
    (if forallb page_ok pages then Some (native_text pages) else None).
Proof.
  unfold App.extract_pdf_text, PdfTextExtractor.extract_pdf_text.
  rewrite extract_pages_acc. simpl.
  destruct (forallb page_ok pages); split; reflexivity.
Qed.

(** ** Claim C2 *)

(** C2 (counterexample): a document whose native text is short ("hi" and a
    newline) gets that native text back; no OCR result can replace it. *)
Lemma extract_short_native_kept :
  let doc := Pdf [Page (Some (lit "hi"))] in
  (length (py_strip (App.extract_pdf_text doc)) < 80)%nat /\
  App.extract_pdf_text doc = lit "hi" ++ NL /\
  App.extract_pdf_text doc <> lit "text recognised by OCR".
Proof. vm_compute. split; [lia|split; [reflexivity|discriminate]]. Qed.

(** C2 (amended): there is no OCR fallback and no provenance: whatever the
    length of the trimmed native text, below 80 characters included, the
    extraction returns the native text itself. *)
Theorem extract_pdf_text_short_native (pages : list page) :
  forallb page_ok pages = true ->
  (length (py_strip (native_text pages)) < 80)%nat ->
  App.extract_pdf_text (Pdf pages) = native_text pages.
Proof.
  intros Hok _. destruct (extract_pdf_text_pages pages) as [H _].
  rewrite Hok in H. exact H.
Qed.

Lemma extract_pdf_text_short_native_witness :
  App.extract_pdf_text (Pdf [Page None; Page (Some (lit "hi"))]) =
  native_text [Page None; Page (Some (lit "hi"))].
Proof.
  apply (extract_pdf_text_short_native [Page None; Page (Some (lit "hi"))]).
  - reflexivity.
  - vm_compute. lia.
Defined.

(** ** Claim C7 *)

(** C7 (counterexample): when opening the document fails, the variant in
    src/pdf_text_extractor.py returns [None], not an empty string. *)
Lemma extract_open_failure_none :
  PdfTextExtractor.extract_pdf_text OpenFails <> Some [].
Proof. discriminate. Qed.

(** C7 (amended): a failure to open the document does not raise to the
    caller: src/app.py degrades to the empty string and
    src/pdf_text_extractor.py to [None]. *)
Theorem extract_open_failure (f : pdf_source) :
  f = OpenFails ->
  App.extract_pdf_text f = [] /\ PdfTextExtractor.extract_pdf_text f = None.
Proof. intros ->. split; reflexivity. Qed.

Lemma extract_open_failure_witness :
  App.extract_pdf_text OpenFails = [] /\ PdfTextExtractor.extract_pdf_text OpenFails = None.
Proof. apply (extract_open_failure OpenFails). reflexivity. Defined.

(** ** The renderer *)

Lemma page_check_draw (x : Z) (l : pystr) (y : Z) (evs : list event) :
  (page_check ;;; draw_line x l) (mkCanvas y evs) =
  let '(evs', y') := layout_lines [(x, l)] y in Some (tt, mkCanvas y' (evs ++ evs')).
Proof.
  unfold page_check, draw_line, bind, get_y, emit, set_y, ret. cbn.
  destruct (y <? 60)%Z; cbn; rewrite <- ?app_assoc; reflexivity.
Qed.

Lemma layout_lines_cons (x : Z) (l : pystr) (r : list (Z * pystr)) (y : Z) :
  layout_lines ((x, l) :: r) y =
  let '(e1, y1) := layout_lines [(x, l)] y in
  let '(e2, y2) := layout_lines r y1 in (e1 ++ e2, y2).
Proof.
  cbn. destruct (y <? 60)%Z; cbn;
    destruct (layout_lines r _) as [e2 y2]; rewrite <- ?app_assoc; reflexivity.
Qed.

Lemma for_each_lines (x : Z) (ls : list pystr) (y : Z) (evs : list event) :
  for_each ls (fun sub => page_check ;;; draw_line x sub) (mkCanvas y evs) =
  let '(evs', y') := layout_lines (map (fun l => (x, l)) ls) y in
  Some (tt, mkCanvas y' (evs ++ evs')).
Proof.
  revert y evs. induction ls as [|l ls IH]; intros y evs.
  - cbn. rewrite app_nil_r. reflexivity.
  - cbn [for_each map]. rewrite layout_lines_cons.
    unfold bind at 1. rewrite page_check_draw.
    destruct (layout_lines [(x, l)] y) as [e1 y1].
    rewrite IH. destruct (layout_lines (map _ ls) y1) as [e2 y2].
    rewrite app_assoc. reflexivity.
Qed.

Lemma bullet_item_eq (ia idc : pychar -> bool) (item w0 : pystr) (rest : list pystr)
  (y : Z) (evs : list event) :
  textwrap_wrap ia idc 95 (py_strip (py_lstrip_chars (lit "*- ") item)) = w0 :: rest ->
  bullet_item ia idc item (mkCanvas y evs) =
  let '(evs', y') := layout_lines (bullet_layout w0 rest) y in
  Some (tt, mkCanvas y' (evs ++ evs')).
Proof.
  intros H. unfold bullet_item. rewrite H. unfold bullet_layout.
  rewrite layout_lines_cons.
  assert (E : (page_check ;;; (w0' <- index (w0 :: rest) 0 ;;
                draw_line 55 (BULLET :: 32%N :: w0') ;;;
                for_each (skipn 1 (w0 :: rest)) (fun sub => page_check ;;; draw_line 75 sub)))
              (mkCanvas y evs) =
              ((page_check ;;; draw_line 55 (BULLET :: 32%N :: w0)) ;;;
               for_each rest (fun sub => page_check ;;; draw_line 75 sub)) (mkCanvas y evs)).
  { unfold page_check, draw_line, bind, get_y, emit, set_y, ret, index. cbn.
    destruct (y <? 60)%Z; reflexivity. }
  rewrite E. unfold bind at 1. rewrite page_check_draw.
  destruct (layout_lines [(55%Z, _)] y) as [e1 y1].
  rewrite for_each_lines. destruct (layout_lines (map _ rest) y1) as [e2 y2].
  rewrite app_assoc. reflexivity.
Qed.

(** ** Claim C8 *)

(** C8: for a bullet item whose cleaned text wraps into several lines
    [w0 :: rest], the renderer draws [w0] behind the bullet glyph at
    [x = 55] and every continuation line at [x = 75] without glyph, each
    line preceded by the page-break rule ([y < 60]: new page, cursor reset
    to the top margin). *)
Theorem bullet_item_wrapped_layout (ia idc : pychar -> bool) (item w0 : pystr)
  (rest : list pystr) (y : Z) (evs : list event) :
  textwrap_wrap ia idc 95 (py_strip (py_lstrip_chars (lit "*- ") item)) = w0 :: rest ->
  rest <> [] ->
  bullet_item ia idc item (mkCanvas y evs) =
  let '(evs', y') := layout_lines (bullet_layout w0 rest) y in
  Some (tt, mkCanvas y' (evs ++ evs')).
Proof. intros H _. apply bullet_item_eq, H. Qed.

(** A 40-word item wrapped into three lines, started at [y = 80]: the
    third line goes to a new page. *)
Lemma bullet_item_wrapped_layout_witness :
  bullet_item latin1_isalnum latin1_isdecimal (lit "- " ++ sample_words 39) (mkCanvas 80 []) =
  Some (tt, mkCanvas 728
    [DrawString 55 80 (BULLET :: 32%N :: sample_words 18);
     DrawString 75 66 (sample_words 18);
     ShowPage;
     DrawString 75 742 (sample_words 1)]).
Proof.
  rewrite (bullet_item_wrapped_layout latin1_isalnum latin1_isdecimal
             (lit "- " ++ sample_words 39) (sample_words 18)
             [sample_words 18; sample_words 1] 80 []).
  - reflexivity.
  - vm_compute. reflexivity.
  - discriminate.
Defined.

(** ** [textwrap.wrap] on a text with a visible first character *)

Lemma take_fitting_prefix (w n : nat) (chs cl : list pystr) :
  exists l, fst (fst (take_fitting w n chs cl)) = cl ++ l.
Proof.
  revert n cl. induction chs as [|ch chs IH]; intros n cl; cbn.
  - exists []. rewrite app_nil_r. reflexivity.
  - destruct (n + length ch <=? w).
    + destruct (IH (n + length ch) (cl ++ [ch])) as [l El]. rewrite El.
      exists (ch :: l). rewrite <- app_assoc. reflexivity.
    + exists []. rewrite app_nil_r. reflexivity.
Qed.

Lemma wrap_round_lines (w : nat) (chs lines : list pystr) :
  exists l, snd (wrap_round w chs lines) = lines ++ l.
Proof.
  unfold wrap_round.
  destruct (take_fitting _ _ _ _) as [[cl n] c2].
  match goal with |- context [let '(_, _) := ?m in _] => destruct m as [cl2 c3] end.
  cbn. destruct (is_nil _); [exists []; rewrite app_nil_r | eexists]; reflexivity.
Qed.

Lemma wrap_chunks_go_nonempty (f w : nat) (chs lines : list pystr) :
  lines <> [] -> wrap_chunks_go f w chs lines <> [].
Proof.
  revert chs lines. induction f as [|f IH]; intros chs lines H; cbn; [exact H|].
  destruct chs as [|ch chs]; [exact H|].
  destruct (wrap_round_lines w (ch :: chs) lines) as [l El].
  destruct (wrap_round w (ch :: chs) lines) as [c' l'] eqn:E. cbn in El. subst l'.
  apply IH. destruct lines; [congruence|discriminate].
Qed.

Lemma handle_long_word_app (ch : pystr) (rest cl : list pystr) (n w : nat) :
  exists x r, handle_long_word (ch :: rest) cl n w = (cl ++ [x], r).
Proof. unfold handle_long_word. do 2 eexists. reflexivity. Qed.

Lemma handle_long_word_first (c : pychar) (t : pystr) (rest : list pystr) (w : nat) :
  1 <= w -> exists u, fst (handle_long_word ((c :: t) :: rest) [] 0 w) = [c :: u].
Proof.
  intros Hw. destruct w as [|w]; [lia|].
  unfold handle_long_word. cbn [fst app].
  match goal with |- context [firstn ?e (c :: t)] => destruct e as [|k] eqn:Ee end.
  - exfalso. revert Ee.
    repeat match goal with |- context [match ?b with _ => _ end] => destruct b end;
      intros Ee; lia.
  - eexists. reflexivity.
Qed.

Lemma is_nil_true {A} (l : list A) : is_nil l = true -> l = [].
Proof. destruct l; [reflexivity|discriminate]. Qed.

Lemma drop_blank_last (h : pystr) (l : list pystr) : blank h = false ->
  match rev (h :: l) with
  | [] => h :: l
  | last :: before => if blank last then rev before else h :: l
  end <> [].
Proof.
  intros Hh. destruct l as [|z l _] using rev_ind.
  - cbn. rewrite Hh. discriminate.
  - rewrite app_comm_cons, rev_app_distr. cbn [rev app].
    destruct (blank z); [|discriminate].
    rewrite rev_app_distr, rev_involutive. discriminate.
Qed.

Lemma wrap_round_first (w : nat) (c : pychar) (t : pystr) (rest : list pystr) :
  1 <= w -> is_py_space c = false ->
  snd (wrap_round w ((c :: t) :: rest) []) <> [].
Proof.
  intros Hw Hc.
  assert (Hb : blank (c :: t) = false) by (cbn; rewrite Hc; reflexivity).
  unfold wrap_round. rewrite andb_false_r. cbn [take_fitting].
  destruct (0 + length (c :: t) <=? w) eqn:Efit.
  - destruct (take_fitting_prefix w (0 + length (c :: t)) rest ([] ++ [c :: t])) as [l El].
    destruct (take_fitting w _ rest _) as [[cl n] c2]. cbn in El. subst cl.
    assert (Hl : forall l' c3 : list pystr,
      snd (c3, if is_nil (match rev ((c :: t) :: l') with
                          | [] => (c :: t) :: l'
                          | last :: before => if blank last then rev before else (c :: t) :: l'
                          end)
               then [] else [] ++ [concat (match rev ((c :: t) :: l') with
                          | [] => (c :: t) :: l'
                          | last :: before => if blank last then rev before else (c :: t) :: l'
                          end)]) <> []).
    { intros l' c3. destruct (is_nil _) eqn:E; [|discriminate].
      apply is_nil_true in E. exfalso. exact (drop_blank_last _ _ Hb E). }
    destruct c2 as [|ch c2]; [apply Hl|].
    destruct (w <? length ch); [|apply Hl].
    match goal with |- context [handle_long_word (?h :: ?cs) ?cl ?k ?wd] =>
      destruct (handle_long_word_app h cs cl k wd) as (x & r & Ex); rewrite Ex end.
    apply (Hl (l ++ [x])).
  - apply Nat.leb_gt in Efit. rewrite Nat.add_0_l in Efit.
    apply Nat.ltb_lt in Efit. rewrite Efit.
    destruct (handle_long_word_first c t rest w Hw) as [u Eu].
    destruct (handle_long_word _ _ _ _) as [cl2 c3]. cbn in Eu. subst cl2. cbn [snd].
    assert (Hb' : blank (c :: u) = false) by (cbn; rewrite Hc; reflexivity).
    destruct (is_nil _) eqn:E; [|discriminate].
    apply is_nil_true in E. exfalso. exact (drop_blank_last _ [] Hb' E).
Qed.

Lemma tw_space_py (c : pychar) : is_tw_space c = true -> is_py_space c = true.
Proof.
  unfold is_tw_space, is_py_space. intros H.
  apply orb_true_iff in H as [H|H].
  - rewrite H. reflexivity.
  - apply N.eqb_eq in H. subst c. reflexivity.
Qed.

Lemma munge_head (c : pychar) (t : pystr) :
  is_py_space c = false -> exists m, munge_whitespace (c :: t) = c :: m.
Proof.
  intros Hc. unfold munge_whitespace. cbn [expandtabs_go].
  destruct (N.eqb_spec c 9) as [->|_]; [discriminate|].
  cbn [map]. destruct (is_tw_space c) eqn:E.
  - apply tw_space_py in E. congruence.
  - eexists. reflexivity.
Qed.

Lemma scan_word_head (ia idc : pychar -> bool) (pv : pystr) (c : pychar) (s : pystr) :
  exists w r, scan_word ia idc pv (c :: s) = (c :: w, r).
Proof.
  cbn [scan_word].
  destruct (hyphen_ok _ _ _ _); [do 2 eexists; reflexivity|].
  destruct (word_end_ok _); [do 2 eexists; reflexivity|].
  destruct (emdash_ok _ _ _); [do 2 eexists; reflexivity|].
  destruct (scan_word _ _ _ _). do 2 eexists; reflexivity.
Qed.

Lemma split_chunks_head (ia idc : pychar -> bool) (c : pychar) (t : pystr) :
  is_py_space c = false -> exists w rest, split_chunks ia idc (c :: t) = (c :: w) :: rest.
Proof.
  intros Hc. unfold split_chunks.
  destruct (munge_head c t Hc) as [m ->]. cbn [length chunks_go].
  assert (E : is_tw_space c = false)
    by (destruct (is_tw_space c) eqn:E; [apply tw_space_py in E; congruence|reflexivity]).
  rewrite E. cbn [after_word_punct andb].
  destruct (scan_word_head ia idc [] c m) as (w & r & ->).
  do 2 eexists. reflexivity.
Qed.

(** [textwrap.wrap] returns at least one line for a text starting with a
    non-whitespace character. *)
Lemma wrap_nonempty (ia idc : pychar -> bool) (w : nat) (c : pychar) (t : pystr) :
  1 <= w -> is_py_space c = false -> textwrap_wrap ia idc w (c :: t) <> [].
Proof.
  intros Hw Hc. unfold textwrap_wrap.
  destruct (split_chunks_head ia idc c t Hc) as (u & rest & ->).
  cbn [wrap_chunks_go].
  pose proof (wrap_round_first w c u rest Hw Hc) as H.
  destruct (wrap_round w ((c :: u) :: rest) []) as [chs lines]. cbn in H.
  apply wrap_chunks_go_nonempty, H.
Qed.

(** ** Stripping and list markers *)

Lemma existsb_drop_while (p q : pychar -> bool) (s : pystr) :
  (forall c, q c = true -> p c = false) ->
  existsb p (drop_while q s) = existsb p s.
Proof.
  intros Hpq. induction s as [|c s IH]; [reflexivity|].
  cbn [drop_while]. destruct (q c) eqn:E; [|reflexivity].
  cbn [existsb]. rewrite (Hpq c E), IH. reflexivity.
Qed.

Lemma existsb_rev (p : pychar -> bool) (s : pystr) : existsb p (rev s) = existsb p s.
Proof.
  induction s as [|c s IH]; [reflexivity|].
  cbn [rev existsb]. rewrite existsb_app, IH. cbn. rewrite orb_false_r, orb_comm. reflexivity.
Qed.

Lemma has_item_text_strip (s : pystr) : has_item_text (py_strip s) = has_item_text s.
Proof.
  assert (H : forall c, is_py_space c = true -> negb (marker_or_space c) = false)
    by (intros c Hc; unfold marker_or_space; rewrite Hc, orb_true_r; reflexivity).
  unfold has_item_text, py_strip.
  rewrite existsb_rev, existsb_drop_while, existsb_rev, existsb_drop_while by exact H.
  reflexivity.
Qed.

Lemma has_item_text_lstrip (s : pystr) :
  has_item_text (py_lstrip_chars (lit "*- ") s) = has_item_text s.
Proof.
  unfold has_item_text, py_lstrip_chars. apply existsb_drop_while.
  intros c Hc. unfold marker_or_space. rewrite Hc. reflexivity.
Qed.

Lemma drop_while_head (p : pychar -> bool) (s : pystr) :
  drop_while p s = [] \/ exists c r, drop_while p s = c :: r /\ p c = false.
Proof.
  induction s as [|c s IH]; [left; reflexivity|].
  cbn [drop_while]. destruct (p c) eqn:E; [exact IH|right; eauto].
Qed.

Lemma drop_while_snoc (p : pychar -> bool) (l : pystr) (c : pychar) :
  p c = false -> exists v, drop_while p (l ++ [c]) = v ++ [c].
Proof.
  intros Hc. induction l as [|d l IH].
  - exists []. cbn. rewrite Hc. reflexivity.
  - cbn [app drop_while]. destruct (p d); [exact IH|].
    exists (d :: l). reflexivity.
Qed.

Lemma py_strip_head (s : pystr) :
  py_strip s = [] \/ exists c r, py_strip s = c :: r /\ is_py_space c = false.
Proof.
  unfold py_strip.
  destruct (drop_while_head is_py_space s) as [-> | (c & r & -> & Hc)].
  - left. reflexivity.
  - right. cbn [rev]. destruct (drop_while_snoc is_py_space (rev r) c Hc) as [v ->].
    rewrite rev_app_distr. exists c, (rev v). split; [reflexivity|exact Hc].
Qed.

Lemma clean_item_head (item : pystr) :
  has_item_text item = true ->
  exists c r, py_strip (py_lstrip_chars (lit "*- ") item) = c :: r /\ is_py_space c = false.
Proof.
  intros H. rewrite <- has_item_text_lstrip, <- has_item_text_strip in H.
  destruct (py_strip_head (py_lstrip_chars (lit "*- ") item)) as [E|E]; [|exact E].
  rewrite E in H. discriminate.
Qed.

Lemma bullet_item_ok (ia idc : pychar -> bool) (item : pystr) (s : canvas_state) :
  has_item_text item = true -> exists s', bullet_item ia idc item s = Some (tt, s').
Proof.
  intros H. destruct (clean_item_head item H) as (c & r & Ec & Hc).
  pose proof (wrap_nonempty ia idc 95 c r ltac:(lia) Hc) as Hw. rewrite <- Ec in Hw.
  destruct (textwrap_wrap ia idc 95 _) as [|w0 rest] eqn:Ew; [congruence|].
  destruct s as [y evs]. rewrite (bullet_item_eq ia idc item w0 rest y evs Ew).
  destruct (layout_lines _ y) as [evs' y']. eexists. reflexivity.
Qed.

Lemma for_each_ok {A} (xs : list A) (body : A -> M unit) :
  (forall x, In x xs -> forall s, exists s', body x s = Some (tt, s')) ->
  forall s, exists s', for_each xs body s = Some (tt, s').
Proof.
  induction xs as [|x xs IH]; intros H s; [exists s; reflexivity|].
  cbn [for_each]. unfold bind.
  destruct (H x (or_introl eq_refl) s) as [s1 ->].
  apply IH. intros y Hy. apply H. right. exact Hy.
Qed.

Lemma list_items_ok (text item : pystr) :
  bullets_ok text = true -> In item (list_items_of text) -> has_item_text item = true.
Proof.
  intros Hok Hin. unfold list_items_of in Hin.
  apply in_map_iff in Hin as (line & <- & Hin).
  apply filter_In in Hin as [Hin Hne].
  unfold bullets_ok in Hok. rewrite forallb_forall in Hok.
  specialize (Hok line Hin). apply negb_true_iff in Hne. rewrite Hne in Hok.
  rewrite has_item_text_strip. exact Hok.
Qed.

(** ** Claim C10 *)

(** C10 (counterexample): the line ["*" followed by a carriage return] has
    a character other than [*], [-] and space, yet [strip] removes the
    carriage return, nothing is left to wrap, and [wrapped[0]] raises
    [IndexError]. *)
Lemma bullet_list_cr_line_raises :
  existsb (fun c => negb (existsb (N.eqb c) (lit "*- "))) (lit "*" ++ [13%N]) = true /\
  bullet_list latin1_isalnum latin1_isdecimal (lit "*" ++ [13%N]) (mkCanvas 742 []) = None.
Proof. split; vm_compute; reflexivity. Qed.

(** C10 (amended): if every non-blank line of the text has a character
    that is neither a list marker ([*], [-], space) nor Python whitespace,
    [bullet_list] runs to completion; a line made only of marker
    characters violates this and makes [wrapped[0]] raise [IndexError]. *)
Theorem bullet_list_total (ia idc : pychar -> bool) (text : pystr) (s : canvas_state) :
  bullets_ok text = true ->
  (exists s', bullet_list ia idc text s = Some (tt, s')) /\
  bullets_ok (lit "**") = false /\ bullet_list ia idc (lit "**") s = None.
Proof.
  intros Hok. split.
  2:{ split; [reflexivity|]. destruct s as [y evs].
      cbv -[Z.ltb]. destruct (y <? 60)%Z; reflexivity. }
  unfold bullet_list, bind at 1, emit.
  destruct (for_each_ok (list_items_of text) (bullet_item ia idc)
              (fun item Hin s0 => bullet_item_ok ia idc item s0 (list_items_ok text item Hok Hin))
              (mkCanvas (cur_y s) (events s ++ [SetFont "Helvetica" 11])))
    as [s1 Hs1].
  unfold bind at 1. rewrite Hs1. eexists. reflexivity.
Qed.

Lemma bullet_list_total_witness :
  (exists s', bullet_list latin1_isalnum latin1_isdecimal (lit "- one" ++ NL ++ lit "* two")
                (mkCanvas 742 []) = Some (tt, s')) /\
  bullets_ok (lit "**") = false /\
  bullet_list latin1_isalnum latin1_isdecimal (lit "**") (mkCanvas 742 []) = None.
Proof.
  apply bullet_list_total. vm_compute. reflexivity.
Defined.

(** ** Claim C4 *)

(** C4 (code bug): [heading] draws without the [y < 60] check that
    [paragraph] and [bullet_list] make.  After a 45-line paragraph the
    heading of the bullet section is drawn at [y = 52], below the 60pt
    margin, with no new page started. *)
Theorem heading_drawn_below_margin :
  exists evs,
    generate_pdf latin1_isalnum latin1_isdecimal long_simplified (lit "x") (lit "y") = Some evs /\
    In (DrawString 40 52 (lit "2. Bullet Points Summary")) evs /\
    (52 < 60)%Z.
Proof.
  vm_compute. eexists. split; [reflexivity|]. split; [|reflexivity].
  cbn [In]. repeat (first [left; reflexivity | right]).
Qed.

(** ** Words kept whole by [textwrap.wrap] *)
Lemma words_go_word (cur w s : pystr) :
  forallb (fun c => negb (is_tw_space c)) w = true ->
  words_go cur (w ++ s) = words_go (rev w ++ cur) s.
Proof.
  revert cur. induction w as [|c w IH]; intros cur H; [reflexivity|].
  cbn in H. apply andb_prop in H as [H1 H2]. apply negb_true_iff in H1.
  cbn [app words_go]. rewrite H1, IH by exact H2. cbn. rewrite <- app_assoc. reflexivity.
Qed.

Lemma words_go_spaces (w s : pystr) :
  forallb is_tw_space w = true -> words_go [] (w ++ s) = words_go [] s.
Proof.
  induction w as [|c w IH]; intros H; [reflexivity|].
  cbn in H. apply andb_prop in H as [H1 H2].
  cbn [app words_go]. rewrite H1. apply IH, H2.
Qed.

Lemma words_go_sep (cur w s : pystr) :
  w <> [] -> forallb is_tw_space w = true ->
  words_go cur (w ++ s) = (if is_nil cur then [] else [rev cur]) ++ words_go [] s.
Proof.
  destruct w as [|c w]; intros Hne H; [congruence|].
  cbn in H. apply andb_prop in H as [H1 H2].
  cbn [app words_go]. rewrite H1, words_go_spaces by exact H2. reflexivity.
Qed.

Lemma is_nil_rev {A} (l : list A) : is_nil (rev l) = is_nil l.
Proof. destruct l as [|a l]; [reflexivity|]. cbn. destruct (rev l); reflexivity. Qed.

Lemma words_of_chunks (chs : list pystr) :
  forallb (fun ch => negb (is_nil ch) && (is_ws_chunk ch || is_word_chunk ch)) chs = true ->
  alternating chs = true ->
  words_go [] (concat chs) = word_chunks chs.
Proof.
  induction chs as [|ch chs IH]; intros Hok Halt; [reflexivity|].
  cbn [forallb] in Hok. apply andb_prop in Hok as [Hch Hok].
  apply andb_prop in Hch as [Hne Hk]. apply negb_true_iff in Hne.
  assert (Halt' : alternating chs = true)
    by (destruct chs; [reflexivity|]; cbn in Halt; apply andb_prop in Halt as [_ H]; exact H).
  specialize (IH Hok Halt').
  cbn [concat word_chunks filter]. fold (word_chunks chs).
  destruct (is_ws_chunk ch) eqn:Ews.
  - rewrite words_go_spaces by exact Ews. exact IH.
  - cbn [orb] in Hk. cbn [negb].
    rewrite words_go_word by exact Hk. rewrite app_nil_r.
    destruct chs as [|ch2 chs].
    + cbn [concat app words_go]. rewrite is_nil_rev, Hne, rev_involutive. reflexivity.
    + cbn in Halt. rewrite Ews in Halt. cbn in Halt. apply andb_prop in Halt as [Hws2 _].
      cbn [forallb] in Hok. apply andb_prop in Hok as [Hch2 _].
      apply andb_prop in Hch2 as [Hne2 _]. apply negb_true_iff in Hne2.
      cbn [concat] in IH |- *.
      rewrite words_go_sep; [| destruct ch2; discriminate | exact Hws2].
      rewrite words_go_sep in IH; [| destruct ch2; discriminate | exact Hws2].
      cbn in IH. rewrite IH, is_nil_rev, Hne, rev_involutive. reflexivity.
Qed.

Lemma words_go_munge_map (cur s : pystr) :
  words_go cur (map (fun c => if is_tw_space c then 32%N else c) s) = words_go cur s.
Proof.
  revert cur. induction s as [|c s IH]; intros cur; [reflexivity|].
  cbn [map words_go]. destruct (is_tw_space c) eqn:E; cbn [is_tw_space]; rewrite ?E, IH;
    reflexivity.
Qed.

Lemma words_go_expandtabs (col : nat) (cur s : pystr) :
  words_go cur (expandtabs_go col s) = words_go cur s.
Proof.
  revert col cur. induction s as [|c s IH]; intros col cur; [reflexivity|].
  cbn [expandtabs_go]. destruct (N.eqb_spec c 9) as [->|Hc].
  - rewrite words_go_sep, IH.
    + reflexivity.
    + destruct (8 - col mod 8) eqn:E; [pose proof (Nat.mod_upper_bound col 8); lia|discriminate].
    + generalize (8 - col mod 8); intros k; induction k; [reflexivity|exact IHk].
  - cbn [words_go]. destruct (is_tw_space c); rewrite IH; reflexivity.
Qed.

Lemma words_of_munge (t : pystr) : words_of (munge_whitespace t) = words_of t.
Proof.
  unfold words_of, munge_whitespace. rewrite words_go_munge_map. apply words_go_expandtabs.
Qed.

Lemma in_expandtabs (col : nat) (s : pystr) (c : pychar) :
  In c (expandtabs_go col s) -> c = 32%N \/ In c s.
Proof.
  revert col. induction s as [|d s IH]; intros col H; [destruct H|].
  cbn [expandtabs_go] in H. destruct (N.eqb d 9).
  - apply in_app_or in H as [H|H].
    + apply repeat_spec in H. left. exact H.
    + apply IH in H as [H|H]; [left; exact H|right; right; exact H].
  - destruct H as [<-|H]; [right; left; reflexivity|].
    apply IH in H as [H|H]; [left; exact H|right; right; exact H].
Qed.

Lemma in_munge (t : pystr) (c : pychar) :
  In c (munge_whitespace t) -> c = 32%N \/ (In c t /\ is_tw_space c = false).
Proof.
  unfold munge_whitespace. intros H. apply in_map_iff in H as (d & <- & Hd).
  destruct (is_tw_space d) eqn:E; [left; reflexivity|].
  right. split; [|exact E]. apply in_expandtabs in Hd as [->|Hd]; [discriminate|exact Hd].
Qed.


Lemma scan_word_cons (ia idc : pychar -> bool) (pv : pystr) (c : pychar) (r : pystr) :
  scan_word ia idc pv (c :: r) =
  if hyphen_ok ia idc (c :: pv) r then ([c; HYPHEN], tl r)
  else if word_end_ok r then ([c], r)
  else if emdash_ok ia (c :: pv) r then ([c], r)
  else let (w, rest) := scan_word ia idc (c :: pv) r in (c :: w, rest).
Proof. reflexivity. Qed.

Lemma scan_word_run (ia idc : pychar -> bool) (r pv : pystr) (c : pychar) :
  forallb (fun d => negb (N.eqb d HYPHEN)) r = true ->
  scan_word ia idc pv (c :: r) = (c :: take_while nsp r, drop_while nsp r).
Proof.
  revert pv c. induction r as [|d r IH]; intros pv c H; [reflexivity|].
  cbn [forallb] in H. apply andb_prop in H as [Hd H]. apply negb_true_iff in Hd.
  rewrite scan_word_cons.
  assert (Eh : hyphen_ok ia idc (c :: pv) (d :: r) = false)
    by (unfold hyphen_ok; rewrite Hd; reflexivity).
  rewrite Eh. cbn [word_end_ok]. cbn [take_while drop_while]. unfold nsp at 1 3.
  destruct (is_tw_space d) eqn:Es; [reflexivity|].
  assert (Ee : emdash_ok ia (c :: pv) (d :: r) = false)
    by (unfold emdash_ok, emdash_at; destruct r; [apply andb_false_r|];
        rewrite Hd; apply andb_false_r).
  rewrite Ee, IH by exact H. reflexivity.
Qed.


Lemma take_drop_while (p : pychar -> bool) (s : pystr) :
  take_while p s ++ drop_while p s = s.
Proof. induction s as [|c s IH]; [reflexivity|]. cbn. destruct (p c); cbn; congruence. Qed.

Lemma take_while_all (p : pychar -> bool) (s : pystr) : forallb p (take_while p s) = true.
Proof.
  induction s as [|c s IH]; [reflexivity|]. cbn. destruct (p c) eqn:E; [|reflexivity].
  cbn. rewrite E. exact IH.
Qed.

Lemma drop_while_suffix (p : pychar -> bool) (s : pystr) :
  exists pre, s = pre ++ drop_while p s.
Proof.
  induction s as [|c s IH]; [exists []; reflexivity|]. cbn. destruct (p c).
  - destruct IH as [pre E]. exists (c :: pre). cbn. congruence.
  - exists []. reflexivity.
Qed.

Lemma forallb_drop_while (q p : pychar -> bool) (s : pystr) :
  forallb q s = true -> forallb q (drop_while p s) = true.
Proof.
  intros H. destruct (drop_while_suffix p s) as [pre E].
  rewrite E, forallb_app in H. apply andb_prop in H as [_ H]. exact H.
Qed.

Lemma drop_while_length (p : pychar -> bool) (s : pystr) :
  length (drop_while p s) <= length s.
Proof.
  destruct (drop_while_suffix p s) as [pre E]. rewrite E at 2. rewrite length_app. lia.
Qed.

Lemma alternating_cons (a : pystr) (chs : list pystr) :
  alternating (a :: chs) =
  match chs with
  | [] => true
  | b :: _ => (is_ws_chunk a || is_ws_chunk b) && alternating chs
  end.
Proof. destruct chs; reflexivity. Qed.

Lemma chunks_go_props (ia idc : pychar -> bool) (f : nat) (pv s : pystr) :
  length s <= f -> forallb (fun d => negb (N.eqb d HYPHEN)) s = true ->
  concat (chunks_go ia idc f pv s) = s /\
  forallb chunk_shape (chunks_go ia idc f pv s) = true /\
  alternating (chunks_go ia idc f pv s) = true.
Proof.
  revert pv s. induction f as [|f IH]; intros pv s Hl Hh.
  - destruct s; [|cbn in Hl; lia]. repeat split.
  - destruct s as [|c s]; [repeat split|].
    cbn [chunks_go].
    cbn [forallb] in Hh. apply andb_prop in Hh as [Hc Hh]. apply negb_true_iff in Hc.
    cbn [length] in Hl.
    destruct (is_tw_space c) eqn:Es.
    + cbn [take_while drop_while]. rewrite Es.
      destruct (IH (rev (c :: take_while is_tw_space s) ++ pv) (drop_while is_tw_space s))
        as (Hc1 & Hc2 & Hc3).
      { pose proof (drop_while_length is_tw_space s). lia. }
      { apply forallb_drop_while, Hh. }
      repeat split.
      * cbn [concat]. rewrite Hc1. cbn [app]. rewrite take_drop_while. reflexivity.
      * cbn [forallb]. rewrite Hc2. unfold chunk_shape, is_ws_chunk. cbn.
        rewrite Es, take_while_all. reflexivity.
      * rewrite alternating_cons. destruct (chunks_go _ _ _ _ _); [reflexivity|].
        unfold is_ws_chunk at 1. cbn. rewrite Es, take_while_all. exact Hc3.
    + assert (Ee : emdash_at ia (c :: s) = false)
        by (unfold emdash_at; destruct s; [reflexivity|]; rewrite Hc; reflexivity).
      rewrite Ee, andb_false_r, scan_word_run by exact Hh.
      destruct (IH (rev (c :: take_while nsp s) ++ pv) (drop_while nsp s))
        as (Hc1 & Hc2 & Hc3).
      { pose proof (drop_while_length nsp s). lia. }
      { apply forallb_drop_while, Hh. }
      repeat split.
      * cbn [concat]. rewrite Hc1. cbn [app]. rewrite take_drop_while. reflexivity.
      * cbn [forallb]. rewrite Hc2. unfold chunk_shape, is_word_chunk. cbn.
        rewrite Es. cbn [negb andb orb]. rewrite andb_true_r. exact (take_while_all nsp s).
      * rewrite alternating_cons.
        destruct (chunks_go _ _ _ _ _) as [|ch chs] eqn:Ech; [reflexivity|].
        rewrite Hc3, andb_true_r.
        cbn [forallb] in Hc2. apply andb_prop in Hc2 as [Hsh _].
        unfold chunk_shape in Hsh. apply andb_prop in Hsh as [Hne Hk].
        destruct ch as [|d ch]; [discriminate|].
        cbn [concat app] in Hc1.
        destruct (drop_while_head nsp s) as [E|(d' & r' & E & Hd')];
          rewrite E in Hc1; [discriminate|]. injection Hc1 as -> _.
        apply orb_true_iff. right.
        apply orb_true_iff in Hk as [Hk|Hk]; [exact Hk|].
        unfold is_word_chunk in Hk. cbn in Hk. fold (nsp d') in Hk. rewrite Hd' in Hk. discriminate.
Qed.

Lemma munge_chars (t : pystr) (c : pychar) :
  plain_text t = true -> In c (munge_whitespace t) ->
  visible_ok c = true /\ negb (N.eqb c HYPHEN) = true.
Proof.
  intros Ht Hc. apply in_munge in Hc as [->|[Hin Hs]]; [split; reflexivity|].
  unfold plain_text in Ht. rewrite forallb_forall in Ht. specialize (Ht c Hin).
  unfold plain_char in Ht. rewrite Hs in Ht. cbn [orb] in Ht.
  apply andb_prop in Ht as [H1 H2]. unfold visible_ok. rewrite Hs, H1. split; [reflexivity|exact H2].
Qed.

Lemma split_chunks_props (ia idc : pychar -> bool) (w : nat) (t : pystr) :
  plain_text t = true -> forallb (fun x => length x <=? w) (words_of t) = true ->
  chunks_inv w (split_chunks ia idc t) = true /\
  word_chunks (split_chunks ia idc t) = words_of t /\
  concat (split_chunks ia idc t) = munge_whitespace t.
Proof.
  intros Ht Hw. unfold split_chunks.
  destruct (chunks_go_props ia idc (length (munge_whitespace t)) [] (munge_whitespace t))
    as (H1 & H2 & H3).
  { lia. }
  { apply forallb_forall. intros c Hc. apply (munge_chars t c Ht Hc). }
  set (chs := chunks_go ia idc _ [] _) in *.
  assert (Hwords : word_chunks chs = words_of t).
  { rewrite <- words_of_chunks by assumption. rewrite H1. apply words_of_munge. }
  split; [|split; [exact Hwords|exact H1]].
  unfold chunks_inv. rewrite H3, andb_true_r. apply forallb_forall. intros ch Hch.
  rewrite forallb_forall in H2. specialize (H2 ch Hch).
  unfold chunk_shape in H2. apply andb_prop in H2 as [Hne Hk].
  unfold chunk_ok. rewrite Hne. cbn [andb].
  apply andb_true_iff. split.
  - destruct (is_ws_chunk ch) eqn:Ews; [reflexivity|]. cbn [orb] in Hk |- *.
    rewrite Hk. cbn [andb].
    assert (Hin : In ch (words_of t)).
    { rewrite <- Hwords. apply filter_In. rewrite Ews. split; [exact Hch|reflexivity]. }
    rewrite forallb_forall in Hw. exact (Hw ch Hin).
  - apply forallb_forall. intros c Hc.
    assert (Hm : In c (munge_whitespace t)).
    { rewrite <- H1. apply in_concat. exists ch. split; assumption. }
    apply (munge_chars t c Ht Hm).
Qed.

Lemma take_fitting_spec (w n : nat) (chs cl : list pystr) :
  exists added rest',
    take_fitting w n chs cl = (cl ++ added, n + length (concat added), rest') /\
    chs = added ++ rest' /\
    (n <= w -> n + length (concat added) <= w) /\
    match rest' with [] => True | ch :: _ => w < n + length (concat added) + length ch end.
Proof.
  revert n cl. induction chs as [|ch chs IH]; intros n cl.
  - exists [], []. cbn. rewrite app_nil_r, Nat.add_0_r. repeat split; auto.
  - cbn [take_fitting]. destruct (n + length ch <=? w) eqn:E.
    + apply Nat.leb_le in E.
      destruct (IH (n + length ch) (cl ++ [ch])) as (added & r & Et & Ec & Hle & Hnf).
      exists (ch :: added), r. rewrite Et, <- app_assoc. cbn [concat app].
      rewrite length_app, Nat.add_assoc. repeat split; [congruence| |exact Hnf].
      intros _. apply Hle, E.
    + apply Nat.leb_gt in E. exists [], (ch :: chs). cbn. rewrite app_nil_r, Nat.add_0_r.
      repeat split; auto.
Qed.

Lemma alternating_app (a b : list pystr) :
  alternating (a ++ b) = true -> alternating a = true /\ alternating b = true.
Proof.
  induction a as [|x a IH]; intros H; [split; [reflexivity|exact H]|].
  rewrite <- app_comm_cons, alternating_cons in H.
  destruct a as [|y a].
  - split; [reflexivity|]. destruct b as [|z b]; [reflexivity|].
    apply andb_prop in H as [_ H]. exact H.
  - apply andb_prop in H as [H1 H2]. apply IH in H2 as [H2 H3].
    split; [|exact H3]. rewrite alternating_cons. rewrite H1, H2. reflexivity.
Qed.

Lemma chunks_inv_app (w : nat) (a b : list pystr) :
  chunks_inv w (a ++ b) = true -> chunks_inv w a = true /\ chunks_inv w b = true.
Proof.
  unfold chunks_inv. rewrite forallb_app. intros H.
  apply andb_prop in H as [H1 H2]. apply andb_prop in H1 as [Ha Hb].
  apply alternating_app in H2 as [Aa Ab]. rewrite Ha, Hb, Aa, Ab. split; reflexivity.
Qed.

Lemma word_chunks_app (a b : list pystr) :
  word_chunks (a ++ b) = word_chunks a ++ word_chunks b.
Proof. apply filter_app. Qed.

Lemma chunks_inv_length (w : nat) (l : list pystr) :
  chunks_inv w l = true -> l <> [] -> 0 < length (concat l).
Proof.
  destruct l as [|ch l]; intros H Hne; [congruence|].
  unfold chunks_inv in H. cbn [forallb] in H.
  apply andb_prop in H as [H _]. apply andb_prop in H as [H _].
  unfold chunk_ok in H. apply andb_prop in H as [H _]. apply andb_prop in H as [H _].
  destruct ch; [discriminate|]. cbn. lia.
Qed.

Lemma rfind_go_bound (c : pychar) (i : nat) (s : pystr) (acc : option nat) :
  rfind_go c i s acc = acc \/ exists h, rfind_go c i s acc = Some h /\ h < i + length s.
Proof.
  revert i acc. induction s as [|d s IH]; intros i acc; [left; reflexivity|].
  cbn [rfind_go]. destruct (N.eqb d c).
  - right. destruct (IH (S i) (Some i)) as [E|(h & E & Hh)]; rewrite E.
    + exists i. cbn. split; [reflexivity|lia].
    + exists h. cbn. split; [reflexivity|lia].
  - destruct (IH (S i) acc) as [E|(h & E & Hh)]; rewrite E; [left; reflexivity|].
    right. exists h. cbn. split; [reflexivity|lia].
Qed.

Lemma rfind_bound (c : pychar) (s : pystr) (stop h : nat) :
  rfind c s stop = Some h -> h < stop.
Proof.
  unfold rfind. destruct (rfind_go_bound c 0 (firstn stop s) None) as [E|(h' & E & Hh)];
    rewrite E; [discriminate|]. intros H. injection H as ->.
  rewrite length_firstn in Hh. lia.
Qed.

Lemma handle_long_word_cut (ch : pystr) (rest cl : list pystr) (n w : nat) :
  1 <= w -> n <= w -> w < length ch ->
  exists e, handle_long_word (ch :: rest) cl n w = (cl ++ [firstn e ch], skipn e ch :: rest) /\
            e < length ch /\ (n = 0 -> 1 <= e).
Proof.
  intros Hw Hn Hl. unfold handle_long_word.
  assert (Es : (w <? 1) = false) by (apply Nat.ltb_ge; lia). rewrite Es.
  assert (El : (w - n <? length ch) = true) by (apply Nat.ltb_lt; lia). rewrite El.
  destruct (rfind HYPHEN ch (w - n)) as [h|] eqn:Er.
  - apply rfind_bound in Er.
    destruct ((0 <? h) && _).
    + exists (h + 1). repeat split; lia.
    + exists (w - n). repeat split; lia.
  - exists (w - n). repeat split; lia.
Qed.

Lemma blank_ws (ch : pystr) :
  forallb visible_ok ch = true -> blank ch = true -> is_ws_chunk ch = true.
Proof.
  unfold blank, is_ws_chunk. induction ch as [|c ch IH]; intros Hv Hb; [reflexivity|].
  cbn in Hv, Hb |- *. apply andb_prop in Hv as [Hv1 Hv2]. apply andb_prop in Hb as [Hb1 Hb2].
  rewrite (IH Hv2 Hb2), andb_true_r. unfold visible_ok in Hv1.
  rewrite Hb1, orb_false_r in Hv1. exact Hv1.
Qed.

Lemma ws_blank (ch : pystr) : is_ws_chunk ch = true -> blank ch = true.
Proof.
  unfold blank, is_ws_chunk. induction ch as [|c ch IH]; intros H; [reflexivity|].
  cbn in H |- *. apply andb_prop in H as [H1 H2]. rewrite tw_space_py by exact H1.
  apply IH, H2.
Qed.

Lemma chunks_inv_shape (w : nat) (l : list pystr) :
  chunks_inv w l = true -> forallb chunk_shape l = true /\ alternating l = true.
Proof.
  unfold chunks_inv. intros H. apply andb_prop in H as [H1 H2]. split; [|exact H2].
  apply forallb_forall. intros ch Hch. rewrite forallb_forall in H1. specialize (H1 ch Hch).
  unfold chunk_ok in H1. unfold chunk_shape.
  apply andb_prop in H1 as [H1 _]. apply andb_prop in H1 as [Hn Hk]. rewrite Hn. cbn.
  apply orb_true_iff in Hk as [Hk|Hk]; [rewrite Hk; reflexivity|].
  apply andb_prop in Hk as [Hk _]. rewrite Hk, orb_true_r. reflexivity.
Qed.

Lemma finish_plain (w : nat) (lines cl : list pystr) :
  chunks_inv w cl = true ->
  exists L, (if is_nil cl then lines else lines ++ [concat cl]) = lines ++ L /\
            flat_map words_of L = word_chunks cl.
Proof.
  intros H. destruct cl as [|ch cl].
  - exists []. rewrite app_nil_r. split; reflexivity.
  - exists [concat (ch :: cl)]. split; [reflexivity|].
    cbn [flat_map]. rewrite app_nil_r. unfold words_of.
    apply chunks_inv_shape in H as [H1 H2]. apply words_of_chunks; [|exact H2].
    exact H1.
Qed.

Lemma finish_line (w : nat) (lines cl : list pystr) :
  chunks_inv w cl = true ->
  exists L,
    (if is_nil (match rev cl with
                | [] => cl
                | last :: before => if blank last then rev before else cl
                end)
     then lines
     else lines ++ [concat (match rev cl with
                            | [] => cl
                            | last :: before => if blank last then rev before else cl
                            end)]) = lines ++ L /\
    flat_map words_of L = word_chunks cl.
Proof.
  intros H. destruct (rev cl) as [|last before] eqn:Er; [apply (finish_plain w), H|].
  assert (Ec : cl = rev before ++ [last])
    by (rewrite <- (rev_involutive cl), Er; reflexivity).
  destruct (blank last) eqn:Eb; [|apply (finish_plain w), H].
  rewrite Ec in H. apply chunks_inv_app in H as [H1 H2].
  destruct (finish_plain w lines (rev before) H1) as (L & E1 & E2).
  exists L. split; [exact E1|]. rewrite E2, Ec, word_chunks_app.
  unfold chunks_inv in H2. cbn in H2. unfold chunk_ok in H2.
  apply andb_prop in H2 as [H2 _]. apply andb_prop in H2 as [H2 _].
  apply andb_prop in H2 as [_ Hv].
  cbn. rewrite (blank_ws last Hv Eb). cbn. rewrite app_nil_r. reflexivity.
Qed.

Lemma wrap_round_inv (w : nat) (chs lines : list pystr) :
  1 <= w -> chunks_inv w chs = true -> chs <> [] ->
  exists chs' L, wrap_round w chs lines = (chs', lines ++ L) /\
    chunks_inv w chs' = true /\
    length (concat chs') < length (concat chs) /\
    flat_map words_of L ++ word_chunks chs' = word_chunks chs.
Proof.
  intros Hw Hinv Hne. destruct chs as [|ch rest]; [congruence|].
  unfold wrap_round. cbn beta iota zeta.
  remember (if blank ch && negb (is_nil lines) then rest else ch :: rest) as c1 eqn:Ec1.
  assert (F : chunks_inv w c1 = true /\ word_chunks c1 = word_chunks (ch :: rest) /\
              (c1 = ch :: rest \/ length (concat c1) < length (concat (ch :: rest)))).
  { destruct (blank ch && negb (is_nil lines)) eqn:Eb; subst c1; [|auto].
    apply andb_prop in Eb as [Eb _].
    pose proof (chunks_inv_length w [ch] ltac:(apply (chunks_inv_app w [ch] rest Hinv))
                  ltac:(discriminate)) as Hpos.
    apply (chunks_inv_app w [ch] rest) in Hinv as [Hch Hr].
    split; [exact Hr|]. split.
    - unfold chunks_inv in Hch. cbn in Hch. unfold chunk_ok in Hch.
      apply andb_prop in Hch as [Hch _]. apply andb_prop in Hch as [Hch _].
      apply andb_prop in Hch as [_ Hv].
      cbn. rewrite (blank_ws ch Hv Eb). reflexivity.
    - right. cbn [concat]. rewrite length_app. cbn [concat] in Hpos. rewrite app_nil_r in Hpos. lia. }
  clear Ec1. destruct F as (I1 & W1 & D1).
  assert (Hc1 : length (concat c1) <= length (concat (ch :: rest)))
    by (destruct D1 as [->|D]; lia).
  destruct (take_fitting_spec w 0 c1 []) as (added & r2 & Et & Ec & Hle & Hnf).
  rewrite Et. cbn [app]. specialize (Hle (Nat.le_0_l w)).
  assert (Ipos : 0 < length (concat (ch :: rest))) by (apply (chunks_inv_length w); [exact Hinv|discriminate]).
  rewrite Ec in I1. apply chunks_inv_app in I1 as [Ia Ir].
  rewrite Ec, word_chunks_app in W1.
  rewrite Ec, concat_app, length_app in Hc1.
  destruct r2 as [|ch2 r2].
  - destruct (finish_line w lines added Ia) as (L & EL & WL).
    exists [], L. split; [rewrite <- EL; reflexivity|]. split; [reflexivity|]. split; [exact Ipos|].
    rewrite app_nil_r, WL, <- W1. cbn. rewrite app_nil_r. reflexivity.
  - destruct (w <? length ch2) eqn:Ew.
    + apply Nat.ltb_lt in Ew.
      destruct (handle_long_word_cut ch2 r2 added (0 + length (concat added)) w Hw Hle Ew)
        as (e & Eh & He1 & He2).
      rewrite Eh, rev_app_distr. cbn [rev app].
      pose proof Ir as Ir'. apply (chunks_inv_app w [ch2] r2) in Ir' as [Ich2 Ir2].
      assert (Hws : is_ws_chunk ch2 = true /\ forallb visible_ok ch2 = true).
      { unfold chunks_inv in Ich2. cbn in Ich2. unfold chunk_ok in Ich2.
        apply andb_prop in Ich2 as [Ich2 _]. apply andb_prop in Ich2 as [Ich2 _].
        apply andb_prop in Ich2 as [Ich2 Hv]. apply andb_prop in Ich2 as [_ Hk].
        split; [|exact Hv].
        apply orb_true_iff in Hk as [Hk|Hk]; [exact Hk|].
        apply andb_prop in Hk as [_ Hk]. apply Nat.leb_le in Hk. lia. }
      destruct Hws as [Hws Hv].
      assert (Hsplit : forall q : pychar -> bool, forallb q ch2 = true ->
                forallb q (firstn e ch2) = true /\ forallb q (skipn e ch2) = true).
      { intros q Hq. rewrite <- (firstn_skipn e ch2), forallb_app in Hq.
        apply andb_prop in Hq. exact Hq. }
      rewrite (ws_blank (firstn e ch2) (proj1 (Hsplit _ Hws))), rev_involutive.
      destruct (finish_plain w lines added Ia) as (L & EL & WL).
      exists (skipn e ch2 :: r2), L. split; [rewrite <- EL; reflexivity|]. split; [|split].
      * unfold chunks_inv. cbn [forallb]. rewrite alternating_cons.
        unfold chunks_inv in Ir2. apply andb_prop in Ir2 as [Ir2a Ir2b].
        rewrite Ir2a. unfold chunk_ok, is_ws_chunk at 1 2.
        rewrite (proj2 (Hsplit _ Hws)), (proj2 (Hsplit _ Hv)).
        destruct (skipn e ch2) eqn:Es.
        { apply (f_equal (@length _)) in Es. rewrite length_skipn in Es. cbn in Es. lia. }
        cbn [is_nil negb orb andb]. destruct r2; [reflexivity|exact Ir2b].
      * cbn [concat] in Hc1 |- *. rewrite !length_app, length_skipn in *.
        destruct added as [|a added].
        { specialize (He2 eq_refl). cbn. lia. }
        pose proof (chunks_inv_length w (a :: added) Ia ltac:(discriminate)). lia.
      * rewrite WL, <- W1. cbn [word_chunks filter].
        rewrite (proj2 (Hsplit _ Hws) : is_ws_chunk (skipn e ch2) = true), Hws.
        reflexivity.
    + destruct (finish_line w lines added Ia) as (L & EL & WL).
      exists (ch2 :: r2), L. split; [rewrite <- EL; reflexivity|]. split; [exact Ir|]. split.
      * destruct added as [|a added].
        { apply Nat.ltb_ge in Ew. cbn in Hnf. lia. }
        pose proof (chunks_inv_length w (a :: added) Ia ltac:(discriminate)). lia.
      * rewrite WL, <- W1. reflexivity.
Qed.

Lemma wrap_chunks_go_words (w f : nat) (chs lines : list pystr) :
  1 <= w -> chunks_inv w chs = true -> length (concat chs) < f ->
  exists L, wrap_chunks_go f w chs lines = lines ++ L /\ flat_map words_of L = word_chunks chs.
Proof.
  revert chs lines. induction f as [|f IH]; intros chs lines Hw Hinv Hf; [lia|].
  destruct chs as [|ch chs].
  - exists []. rewrite app_nil_r. split; reflexivity.
  - cbn [wrap_chunks_go].
    destruct (wrap_round_inv w (ch :: chs) lines Hw Hinv ltac:(discriminate))
      as (chs' & L1 & E & I' & Hlt & Hwd).
    rewrite E.
    destruct (IH chs' (lines ++ L1) Hw I' ltac:(lia)) as (L2 & E2 & W2).
    exists (L1 ++ L2). rewrite E2, app_assoc. split; [reflexivity|].
    rewrite flat_map_app, W2. exact Hwd.
Qed.

(** For a width of at least 1 and a text without hyphens, whose only
    Python whitespace is [textwrap]'s, and whose words are no longer than
    the width, the words of the wrapped lines, read in order, are the words
    of the text. *)
Lemma wrap_keeps_words (ia idc : pychar -> bool) (w : nat) (t : pystr) :
  1 <= w -> plain_text t = true ->
  forallb (fun x => length x <=? w) (words_of t) = true ->
  flat_map words_of (textwrap_wrap ia idc w t) = words_of t.
Proof.
  intros Hw Ht Hl. unfold textwrap_wrap.
  destruct (split_chunks_props ia idc w t Ht Hl) as (I & Wd & _).
  destruct (wrap_chunks_go_words w (S (length (concat (split_chunks ia idc t))))
              (split_chunks ia idc t) [] Hw I ltac:(lia)) as (L & E & WL).
  rewrite E. cbn [app]. rewrite WL. exact Wd.
Qed.


(** Subsequences *)
Lemma subseq_refl l : subseq l l.
Proof. induction l; constructor; auto. Qed.

Lemma subseq_app_l l1 l2 p : subseq l1 l2 -> subseq l1 (p ++ l2).
Proof. intros H. induction p; cbn; [exact H|constructor; exact IHp]. Qed.

Lemma subseq_app l1 l2 m1 m2 : subseq l1 l2 -> subseq m1 m2 -> subseq (l1 ++ m1) (l2 ++ m2).
Proof.
  intros H1 H2. induction H1; cbn.
  - apply subseq_app_l, H2.
  - constructor. exact IHsubseq.
  - constructor. exact IHsubseq.
Qed.

Lemma subseq_trans l1 l2 l3 : subseq l1 l2 -> subseq l2 l3 -> subseq l1 l3.
Proof.
  intros H12 H23. revert l1 H12. induction H23; intros l0 H12.
  - inversion H12. constructor.
  - inversion H12; subst.
    + constructor.
    + constructor. apply IHsubseq. assumption.
    + constructor. apply IHsubseq. assumption.
  - constructor. apply IHsubseq, H12.
Qed.

Lemma subseq_nil_r l : subseq l [] -> l = [].
Proof. intros H. inversion H; reflexivity. Qed.

(** The isolated short words of a chunk list *)
Lemma good_not_ws (w : nat) (ch : pystr) :
  ch <> [] -> is_ws_chunk ch = true -> good_word w ch = false.
Proof.
  destruct ch as [|c ch]; intros Hne H; [congruence|].
  unfold good_word, is_ws_chunk in *. cbn in H |- *. apply andb_prop in H as [H _].
  unfold nsp. rewrite H. reflexivity.
Qed.

Lemma good_blank (w : nat) (ch : pystr) : blank ch = true -> good_word w ch = false.
Proof. intros H. unfold good_word. rewrite H. apply andb_false_r. Qed.

Lemma iso_mono (w : nat) (lo : bool) (l : list pystr) : subseq (iso w lo l) (iso w true l).
Proof.
  destruct l as [|ch l]; [constructor|]. cbn [iso].
  apply subseq_app; [|apply subseq_refl].
  destruct lo; [apply subseq_refl|]. cbn. destruct (good_word w ch && right_ok l); constructor.
Qed.

Lemma iso_app (w : nat) (lo : bool) (a b : list pystr) :
  subseq (iso w lo (a ++ b)) (iso w lo a ++ iso w true b).
Proof.
  revert lo. induction a as [|x a IH]; intros lo.
  - apply iso_mono.
  - cbn [app iso]. rewrite <- app_assoc. apply subseq_app; [|apply IH].
    destruct (lo && good_word w x) eqn:E; [|apply subseq_refl].
    cbn [andb]. destruct a as [|y a]; cbn [app right_ok].
    + destruct (right_ok b); constructor; constructor.
    + apply subseq_refl.
Qed.

Lemma iso_piece (w : nat) (lo : bool) (a : list pystr) (b1 b2 : pystr) (c : list pystr) :
  is_ws_chunk b1 = is_ws_chunk (b1 ++ b2) -> is_ws_chunk b2 = is_ws_chunk (b1 ++ b2) ->
  good_word w (b1 ++ b2) = false ->
  subseq (iso w lo (a ++ (b1 ++ b2) :: c)) (iso w lo (a ++ [b1]) ++ iso w true (b2 :: c)).
Proof.
  intros E1 E2 Hg. revert lo. induction a as [|x a IH]; intros lo.
  - cbn [app iso]. rewrite Hg, andb_false_r. cbn [andb app].
    apply subseq_app_l. cbn [iso]. rewrite E2. apply subseq_app_l, subseq_refl.
  - cbn [app iso]. rewrite <- app_assoc. apply subseq_app; [|apply IH].
    destruct a as [|y a]; cbn [app right_ok]; [rewrite E1|]; apply subseq_refl.
Qed.

Lemma iso_words (w : nat) (cl : list pystr) :
  forallb chunk_shape cl = true ->
  forall cur lo, (lo = true -> cur = []) -> subseq (iso w lo cl) (words_go cur (concat cl)).
Proof.
  induction cl as [|ch cl IH]; intros Hs cur lo Hlo; [constructor|].
  cbn [forallb] in Hs. apply andb_prop in Hs as [Hch Hs].
  unfold chunk_shape in Hch. apply andb_prop in Hch as [Hne Hk].
  apply negb_true_iff in Hne.
  assert (Hne' : ch <> []) by (intros ->; discriminate).
  cbn [iso concat].
  destruct (is_ws_chunk ch) eqn:Ews.
  - rewrite good_not_ws by assumption. rewrite andb_false_r. cbn [app].
    rewrite words_go_sep by assumption. apply subseq_app_l. apply IH; [exact Hs|reflexivity].
  - cbn [orb] in Hk. rewrite words_go_word by exact Hk.
    destruct (lo && good_word w ch && right_ok cl) eqn:Eg.
    + apply andb_prop in Eg as [Eg Hr]. apply andb_prop in Eg as [Hl _].
      specialize (Hlo Hl). subst cur. rewrite app_nil_r. cbn [app].
      destruct cl as [|ch2 cl].
      * cbn. rewrite is_nil_rev, Hne, rev_involutive. constructor. constructor.
      * cbn [right_ok] in Hr. cbn [forallb] in Hs. apply andb_prop in Hs as [Hch2 Hs'].
        unfold chunk_shape in Hch2. apply andb_prop in Hch2 as [Hne2 _].
        apply negb_true_iff in Hne2.
        cbn [concat]. rewrite words_go_sep; [| destruct ch2; discriminate | exact Hr].
        rewrite is_nil_rev, Hne, rev_involutive. cbn [app]. constructor.
        specialize (IH ltac:(cbn [forallb]; rewrite Hs'; unfold chunk_shape;
                             rewrite Hne2; cbn; rewrite Hr; reflexivity) [] false ltac:(discriminate)).
        cbn [concat] in IH. rewrite words_go_sep in IH; [| destruct ch2; discriminate | exact Hr].
        exact IH.
    + cbn [app]. apply IH; [exact Hs|discriminate].
Qed.

(** The wrapping keeps every isolated short word *)
Lemma shape_parts (p1 p2 : pystr) :
  p1 <> [] -> p2 <> [] -> chunk_shape (p1 ++ p2) = true ->
  chunk_shape p1 = true /\ chunk_shape p2 = true /\
  is_ws_chunk p1 = is_ws_chunk (p1 ++ p2) /\ is_ws_chunk p2 = is_ws_chunk (p1 ++ p2).
Proof.
  intros H1 H2 H. unfold chunk_shape in H. apply andb_prop in H as [_ Hk].
  assert (N1 : is_nil p1 = false) by (destruct p1; [congruence|reflexivity]).
  assert (N2 : is_nil p2 = false) by (destruct p2; [congruence|reflexivity]).
  unfold chunk_shape. rewrite N1, N2. cbn [negb andb].
  destruct (is_ws_chunk (p1 ++ p2)) eqn:Ew.
  - unfold is_ws_chunk in Ew. rewrite forallb_app in Ew. apply andb_prop in Ew as [A B].
    unfold is_ws_chunk. rewrite A, B. repeat split.
  - cbn [orb] in Hk. unfold is_word_chunk in Hk. rewrite forallb_app in Hk.
    apply andb_prop in Hk as [A B].
    assert (Hw : forall p, p <> [] -> forallb (fun c => negb (is_tw_space c)) p = true ->
                 is_ws_chunk p = false).
    { intros [|c p] Hp Hf; [congruence|]. cbn in Hf. apply andb_prop in Hf as [Hc _].
      unfold is_ws_chunk. cbn. apply negb_true_iff in Hc. rewrite Hc. reflexivity. }
    rewrite (Hw p1 H1 A), (Hw p2 H2 B). unfold is_word_chunk. rewrite A, B.
    repeat split; apply orb_true_r.
Qed.

Lemma finish_plain_iso (w : nat) (lines cl : list pystr) :
  forallb chunk_shape cl = true ->
  exists L, (if is_nil cl then lines else lines ++ [concat cl]) = lines ++ L /\
            subseq (iso w true cl) (flat_map words_of L).
Proof.
  intros H. destruct cl as [|ch cl].
  - exists []. rewrite app_nil_r. split; [reflexivity|constructor].
  - exists [concat (ch :: cl)]. split; [reflexivity|].
    cbn [flat_map]. rewrite app_nil_r. unfold words_of.
    apply iso_words; [exact H|reflexivity].
Qed.

Lemma finish_iso (w : nat) (lines cl : list pystr) :
  forallb chunk_shape cl = true ->
  exists L,
    (if is_nil (match rev cl with
                | [] => cl
                | last :: before => if blank last then rev before else cl
                end)
     then lines
     else lines ++ [concat (match rev cl with
                            | [] => cl
                            | last :: before => if blank last then rev before else cl
                            end)]) = lines ++ L /\
    subseq (iso w true cl) (flat_map words_of L).
Proof.
  intros H. destruct (rev cl) as [|last before] eqn:Er; [apply finish_plain_iso, H|].
  assert (Ec : cl = rev before ++ [last])
    by (rewrite <- (rev_involutive cl), Er; reflexivity).
  destruct (blank last) eqn:Eb; [|apply finish_plain_iso, H].
  rewrite Ec in H |- *. rewrite forallb_app in H. apply andb_prop in H as [H1 _].
  destruct (finish_plain_iso w lines (rev before) H1) as (L & E1 & E2).
  exists L. split; [exact E1|].
  eapply subseq_trans; [apply iso_app|].
  cbn [iso]. rewrite good_blank by exact Eb. rewrite andb_false_r. cbn [andb app].
  rewrite app_nil_r. exact E2.
Qed.

Lemma concat_pos (l : list pystr) :
  forallb chunk_shape l = true -> l <> [] -> 0 < length (concat l).
Proof.
  destruct l as [|ch l]; intros H Hne; [congruence|].
  cbn [forallb] in H. apply andb_prop in H as [H _]. unfold chunk_shape in H.
  apply andb_prop in H as [H _]. destruct ch; [discriminate|]. cbn. lia.
Qed.

Lemma wrap_round_iso (w : nat) (chs lines : list pystr) :
  1 <= w -> forallb chunk_shape chs = true -> chs <> [] ->
  exists chs' L, wrap_round w chs lines = (chs', lines ++ L) /\
    forallb chunk_shape chs' = true /\
    length (concat chs') < length (concat chs) /\
    subseq (iso w true chs) (flat_map words_of L ++ iso w true chs').
Proof.
  intros Hw Hsh Hne. destruct chs as [|ch rest]; [congruence|].
  unfold wrap_round. cbn beta iota zeta.
  remember (if blank ch && negb (is_nil lines) then rest else ch :: rest) as c1 eqn:Ec1.
  assert (Ipos : 0 < length (concat (ch :: rest))) by (apply concat_pos; [exact Hsh|discriminate]).
  assert (F : forallb chunk_shape c1 = true /\ subseq (iso w true (ch :: rest)) (iso w true c1) /\
              (c1 = ch :: rest \/ length (concat c1) < length (concat (ch :: rest)))).
  { destruct (blank ch && negb (is_nil lines)) eqn:Eb; subst c1;
      [|split; [exact Hsh|split; [apply subseq_refl|left; reflexivity]]].
    apply andb_prop in Eb as [Eb _].
    cbn [forallb] in Hsh. apply andb_prop in Hsh as [Hch Hr].
    split; [exact Hr|]. split.
    - cbn [iso]. rewrite good_blank by exact Eb. rewrite andb_false_r. cbn [andb app].
      apply iso_mono.
    - right. cbn [concat]. rewrite length_app.
      assert (0 < length ch) by (unfold chunk_shape in Hch; destruct ch; [discriminate|cbn; lia]).
      lia. }
  clear Ec1. destruct F as (S1 & W1 & D1).
  assert (Hc1 : length (concat c1) <= length (concat (ch :: rest)))
    by (destruct D1 as [->|D]; lia).
  destruct (take_fitting_spec w 0 c1 []) as (added & r2 & Et & Ec & Hle & Hnf).
  rewrite Et. cbn [app]. specialize (Hle (Nat.le_0_l w)).
  rewrite Ec in S1. rewrite forallb_app in S1. apply andb_prop in S1 as [Sa Sr].
  rewrite Ec in W1. rewrite Ec, concat_app, length_app in Hc1.
  destruct r2 as [|ch2 r2].
  - destruct (finish_iso w lines added Sa) as (L & EL & WL).
    exists [], L. split; [rewrite <- EL; reflexivity|]. split; [reflexivity|]. split; [exact Ipos|].
    rewrite app_nil_r. rewrite app_nil_r in W1. eapply subseq_trans; [exact W1|exact WL].
  - cbn [forallb] in Sr. apply andb_prop in Sr as [Sch2 Sr2].
    assert (Hadd : added <> [] -> 0 < length (concat added))
      by (intros; apply concat_pos; assumption).
    destruct (w <? length ch2) eqn:Ew.
    + apply Nat.ltb_lt in Ew.
      destruct (handle_long_word_cut ch2 r2 added (0 + length (concat added)) w Hw Hle Ew)
        as (e & Eh & He1 & He2).
      rewrite Eh.
      assert (Hg : good_word w ch2 = false).
      { unfold good_word. apply Nat.leb_gt in Ew. rewrite Ew. rewrite andb_false_r. reflexivity. }
      destruct e as [|e].
      * cbn [firstn skipn]. rewrite rev_app_distr. cbn [rev app]. cbn [blank forallb].
        rewrite rev_involutive.
        destruct (finish_plain_iso w lines added Sa) as (L & EL & WL).
        exists (ch2 :: r2), L. split; [rewrite <- EL; reflexivity|].
        split; [cbn [forallb]; rewrite Sch2, Sr2; reflexivity|]. split.
        { destruct added as [|a added]; [specialize (He2 eq_refl); lia|].
          specialize (Hadd ltac:(discriminate)). cbn [concat] in Hc1, Hadd |- *. lia. }
        eapply subseq_trans; [exact W1|].
        eapply subseq_trans; [apply iso_app|]. apply subseq_app; [exact WL|apply subseq_refl].
      * assert (Hp1 : firstn (S e) ch2 <> [])
          by (destruct ch2; [cbn in He1; lia|discriminate]).
        assert (Hp2 : skipn (S e) ch2 <> []).
        { intros E. apply (f_equal (@length _)) in E. rewrite length_skipn in E. cbn in E. lia. }
        pose proof (firstn_skipn (S e) ch2) as Efs.
        destruct (shape_parts (firstn (S e) ch2) (skipn (S e) ch2) Hp1 Hp2
                    ltac:(rewrite Efs; exact Sch2)) as (P1 & P2 & T1 & T2).
        rewrite Efs in T1, T2.
        destruct (finish_iso w lines (added ++ [firstn (S e) ch2])
                    ltac:(rewrite forallb_app, Sa; cbn [forallb]; rewrite P1; reflexivity)) as (L & EL & WL).
        exists (skipn (S e) ch2 :: r2), L. split; [rewrite <- EL; reflexivity|].
        split; [cbn [forallb]; rewrite P2, Sr2; reflexivity|]. split.
        { cbn [concat] in Hc1 |- *. rewrite !length_app, length_skipn in *. lia. }
        eapply subseq_trans; [exact W1|].
        rewrite <- Efs at 1.
        eapply subseq_trans; [apply iso_piece; rewrite Efs; assumption|].
        apply subseq_app; [exact WL|apply subseq_refl].
    + destruct (finish_iso w lines added Sa) as (L & EL & WL).
      exists (ch2 :: r2), L. split; [rewrite <- EL; reflexivity|].
      split; [cbn [forallb]; rewrite Sch2, Sr2; reflexivity|]. split.
      * destruct added as [|a added].
        { apply Nat.ltb_ge in Ew. cbn in Hnf. lia. }
        specialize (Hadd ltac:(discriminate)). cbn [concat] in Hc1, Hadd |- *. lia.
      * eapply subseq_trans; [exact W1|].
        eapply subseq_trans; [apply iso_app|]. apply subseq_app; [exact WL|apply subseq_refl].
Qed.

Lemma wrap_chunks_go_iso (w f : nat) (chs lines : list pystr) :
  1 <= w -> forallb chunk_shape chs = true -> length (concat chs) < f ->
  exists L, wrap_chunks_go f w chs lines = lines ++ L /\
            subseq (iso w true chs) (flat_map words_of L).
Proof.
  revert chs lines. induction f as [|f IH]; intros chs lines Hw Hs Hf; [lia|].
  destruct chs as [|ch chs].
  - exists []. rewrite app_nil_r. split; [reflexivity|constructor].
  - cbn [wrap_chunks_go].
    destruct (wrap_round_iso w (ch :: chs) lines Hw Hs ltac:(discriminate))
      as (chs' & L1 & E & S' & Hlt & Hsub).
    rewrite E.
    destruct (IH chs' (lines ++ L1) Hw S' ltac:(lia)) as (L2 & E2 & W2).
    exists (L1 ++ L2). rewrite E2, app_assoc. split; [reflexivity|].
    rewrite flat_map_app. eapply subseq_trans; [exact Hsub|].
    apply subseq_app; [apply subseq_refl|exact W2].
Qed.

(** The chunking isolates every short hyphen-free word *)
Lemma forallb_weaken (p q : pychar -> bool) (l : pystr) :
  (forall c, p c = true -> q c = true) -> forallb p l = true -> forallb q l = true.
Proof.
  intros Hpq H. apply forallb_forall. intros c Hc. apply Hpq.
  rewrite forallb_forall in H. exact (H c Hc).
Qed.

Lemma drop_while_app_all (p : pychar -> bool) (a b : pystr) :
  forallb p a = true -> drop_while p (a ++ b) = drop_while p b.
Proof.
  induction a as [|c a IH]; intros H; [reflexivity|].
  cbn in H |- *. apply andb_prop in H as [H1 H2]. rewrite H1. apply IH, H2.
Qed.

Lemma words_go_split (cur s : pystr) :
  words_go cur s =
  (if is_nil (rev cur ++ take_while nsp s) then [] else [rev cur ++ take_while nsp s]) ++
  words_go [] (drop_while nsp s).
Proof.
  revert cur. induction s as [|c s IH]; intros cur.
  - cbn [words_go take_while drop_while]. rewrite !app_nil_r, is_nil_rev. reflexivity.
  - cbn [words_go take_while drop_while]. replace (nsp c) with (negb (is_tw_space c)) by reflexivity.
    destruct (is_tw_space c) eqn:E.
    + cbn [negb]. rewrite app_nil_r, is_nil_rev. cbn [words_go]. rewrite E. reflexivity.
    + cbn [negb]. rewrite IH. cbn [rev]. rewrite <- app_assoc. cbn [app].
      assert (Hn : forall l, is_nil (l ++ c :: take_while nsp s) = false)
        by (intros l; destruct l; reflexivity).
      rewrite Hn. destruct cur; reflexivity.
Qed.

Lemma words_go_word_head (c : pychar) (s : pystr) :
  nsp c = true ->
  words_go [] (c :: s) = take_while nsp (c :: s) :: words_go [] (drop_while nsp (c :: s)).
Proof.
  intros Hc. rewrite words_go_split. cbn [rev app take_while]. rewrite Hc. reflexivity.
Qed.

Lemma hyphen_ok_no (ia idc : pychar -> bool) (pv r : pystr) :
  match r with [] => True | h :: _ => N.eqb h HYPHEN = false end ->
  hyphen_ok ia idc pv r = false.
Proof. destruct r as [|h r]; intros H; [reflexivity|]. unfold hyphen_ok. rewrite H. reflexivity. Qed.

Lemma scan_word_shape (ia idc : pychar -> bool) (s pv : pystr) (c : pychar) :
  nsp c = true ->
  fst (scan_word ia idc pv (c :: s)) ++ snd (scan_word ia idc pv (c :: s)) = c :: s /\
  fst (scan_word ia idc pv (c :: s)) <> [] /\
  forallb nsp (fst (scan_word ia idc pv (c :: s))) = true.
Proof.
  revert pv c. induction s as [|d s IH]; intros pv c Hc.
  - cbn. rewrite Hc. repeat split; discriminate.
  - rewrite scan_word_cons.
    destruct (hyphen_ok ia idc (c :: pv) (d :: s)) eqn:Eh.
    + unfold hyphen_ok in Eh. apply andb_prop in Eh as [Eh _]. apply andb_prop in Eh as [Eh _].
      apply N.eqb_eq in Eh. subst d. cbn. rewrite Hc. repeat split; discriminate.
    + cbn [word_end_ok]. destruct (is_tw_space d) eqn:Ed.
      * cbn. rewrite Hc. repeat split; discriminate.
      * destruct (emdash_ok ia (c :: pv) (d :: s)).
        { cbn. rewrite Hc. repeat split; discriminate. }
        assert (Hd : nsp d = true) by (unfold nsp; rewrite Ed; reflexivity).
        destruct (IH (c :: pv) d Hd) as (H1 & H2 & H3).
        destruct (scan_word ia idc (c :: pv) (d :: s)) as [wd rest]. cbn [fst snd] in *.
        cbn [app]. rewrite H1. cbn [forallb]. rewrite Hc, H3. repeat split; discriminate.
Qed.

Lemma scan_word_exact (ia idc : pychar -> bool) (x r pv : pystr) :
  x <> [] -> forallb (fun c => nsp c && negb (N.eqb c HYPHEN)) x = true ->
  word_end_ok r = true -> scan_word ia idc pv (x ++ r) = (x, r).
Proof.
  revert pv. induction x as [|c x IH]; intros pv Hne Hx Hr; [congruence|].
  cbn [forallb] in Hx. apply andb_prop in Hx as [Hc Hx].
  cbn [app]. rewrite scan_word_cons.
  destruct x as [|d x].
  - cbn [app]. rewrite hyphen_ok_no, Hr; [reflexivity|].
    destruct r as [|h r]; [exact I|]. cbn in Hr.
    destruct (N.eqb_spec h HYPHEN) as [->|]; [discriminate|reflexivity].
  - cbn in Hx. apply andb_prop in Hx as [Hd Hx']. apply andb_prop in Hd as [Hd1 Hd2].
    apply negb_true_iff in Hd2.
    rewrite hyphen_ok_no by exact Hd2.
    cbn [app word_end_ok]. unfold nsp in Hd1. apply negb_true_iff in Hd1. rewrite Hd1.
    assert (Ee : emdash_ok ia (c :: pv) (d :: x ++ r) = false).
    { unfold emdash_ok, emdash_at. destruct (x ++ r); [apply andb_false_r|].
      rewrite Hd2. apply andb_false_r. }
    rewrite Ee. change (d :: x ++ r) with ((d :: x) ++ r). rewrite (IH (c :: pv)); [reflexivity|discriminate| |exact Hr].
    cbn [forallb]. unfold nsp. rewrite Hd1, Hd2. exact Hx'.
Qed.

Lemma chunks_go_nil (ia idc : pychar -> bool) (f : nat) (pv : pystr) :
  chunks_go ia idc f pv [] = [].
Proof. destruct f; reflexivity. Qed.

Lemma chunks_go_ws (ia idc : pychar -> bool) (f : nat) (pv : pystr) (d : pychar) (r : pystr) :
  is_tw_space d = true ->
  chunks_go ia idc (S f) pv (d :: r) =
  take_while is_tw_space (d :: r) ::
    chunks_go ia idc f (rev (take_while is_tw_space (d :: r)) ++ pv) (drop_while is_tw_space (d :: r)).
Proof. intros H. cbn [chunks_go]. rewrite H. reflexivity. Qed.

Lemma chunks_go_word (ia idc : pychar -> bool) (f : nat) (pv : pystr) (c : pychar) (s : pystr) :
  nsp c = true ->
  exists ch rest pv',
    chunks_go ia idc (S f) pv (c :: s) = ch :: chunks_go ia idc f pv' rest /\
    ch ++ rest = c :: s /\ ch <> [] /\ forallb nsp ch = true /\
    (forallb (fun d => nsp d && negb (N.eqb d HYPHEN)) (take_while nsp (c :: s)) = true ->
     ch = take_while nsp (c :: s) /\ rest = drop_while nsp (c :: s)).
Proof.
  intros Hc. cbn [chunks_go].
  assert (Es : is_tw_space c = false) by (unfold nsp in Hc; apply negb_true_iff, Hc).
  rewrite Es.
  destruct (after_word_punct ia pv && emdash_at ia (c :: s)) eqn:Ed.
  - apply andb_prop in Ed as [_ Ed]. unfold emdash_at in Ed.
    destruct s as [|b s]; [discriminate|].
    apply andb_prop in Ed as [Ed _]. apply andb_prop in Ed as [Ed _].
    apply N.eqb_eq in Ed. subst c.
    eexists _, _, _. split; [reflexivity|]. split; [apply take_drop_while|].
    split; [cbn [take_while]; rewrite N.eqb_refl; discriminate|]. split.
    + apply (forallb_weaken (N.eqb HYPHEN)); [|apply take_while_all].
      intros d Hd. apply N.eqb_eq in Hd. subst d. reflexivity.
    + intros H. cbn [take_while forallb] in H. rewrite Hc in H. cbn [forallb] in H.
      rewrite Hc, N.eqb_refl in H. cbn [andb negb] in H. discriminate.
  - destruct (scan_word_shape ia idc s pv c Hc) as (H1 & H2 & H3).
    destruct (scan_word ia idc pv (c :: s)) as [wd rest] eqn:Ew. cbn [fst snd] in *.
    eexists _, _, _. split; [reflexivity|]. split; [exact H1|]. split; [exact H2|].
    split; [exact H3|].
    intros Hx. rewrite <- (take_drop_while nsp (c :: s)) in Ew.
    rewrite scan_word_exact in Ew.
    + injection Ew as <- <-. split; reflexivity.
    + cbn. rewrite Hc. discriminate.
    + exact Hx.
    + destruct (drop_while_head nsp (c :: s)) as [->|(d & r & -> & Hd)]; [reflexivity|].
      cbn. unfold nsp in Hd. apply negb_false_iff in Hd. exact Hd.
Qed.

Lemma chunks_go_shape (ia idc : pychar -> bool) (f : nat) (pv s : pystr) :
  forallb chunk_shape (chunks_go ia idc f pv s) = true.
Proof.
  revert pv s. induction f as [|f IH]; intros pv s; [reflexivity|].
  destruct s as [|c s]; [reflexivity|].
  destruct (is_tw_space c) eqn:Es.
  - rewrite chunks_go_ws by exact Es. cbn [forallb]. rewrite IH, andb_true_r.
    unfold chunk_shape, is_ws_chunk. cbn [take_while]. rewrite Es. cbn [is_nil negb andb forallb].
    rewrite Es, take_while_all. reflexivity.
  - assert (Hc : nsp c = true) by (unfold nsp; rewrite Es; reflexivity).
    destruct (chunks_go_word ia idc f pv c s Hc) as (ch & rest & pv' & E & _ & Hne & Hn & _).
    rewrite E. cbn [forallb]. rewrite IH, andb_true_r.
    unfold chunk_shape. destruct ch; [congruence|]. cbn [is_nil negb andb].
    unfold is_word_chunk. fold nsp. rewrite Hn. apply orb_true_r.
Qed.

Lemma chunks_go_iso (ia idc : pychar -> bool) (w f : nat) (pv s : pystr) (lo : bool) :
  length s <= f ->
  subseq (filter (good_word w) (words_go [] (if lo then s else drop_while nsp s)))
         (iso w lo (chunks_go ia idc f pv s)).
Proof.
  revert pv s lo. induction f as [|f IH]; intros pv s lo Hl.
  - destruct s; [|cbn in Hl; lia]. destruct lo; constructor.
  - destruct s as [|c s]; [destruct lo; constructor|]. cbn [length] in Hl.
    destruct (is_tw_space c) eqn:Es.
    + rewrite chunks_go_ws by exact Es. cbn [iso].
      assert (Hws : is_ws_chunk (take_while is_tw_space (c :: s)) = true)
        by apply take_while_all.
      rewrite good_not_ws by (try exact Hws; cbn [take_while]; rewrite Es; discriminate).
      rewrite Hws, andb_false_r. cbn [andb app].
      match goal with |- context [words_go [] ?k] =>
        replace (words_go [] k) with (words_go [] (drop_while is_tw_space (c :: s))) end.
      * apply (IH _ _ true). pose proof (drop_while_length is_tw_space s).
        cbn [drop_while]. rewrite Es. lia.
      * assert (Ew : words_go [] (c :: s) = words_go [] (drop_while is_tw_space (c :: s))).
        { rewrite <- (take_drop_while is_tw_space (c :: s)) at 1.
          rewrite words_go_spaces by apply take_while_all. reflexivity. }
        destruct lo; [exact (eq_sym Ew)|].
        cbn [drop_while]. replace (nsp c) with false by (unfold nsp; rewrite Es; reflexivity).
        exact (eq_sym Ew).
    + assert (Hc : nsp c = true) by (unfold nsp; rewrite Es; reflexivity).
      destruct (chunks_go_word ia idc f pv c s Hc) as (ch & rest & pv' & E & Ecat & Hne & Hn & Hx).
      rewrite E. cbn [iso].
      assert (Hwch : is_ws_chunk ch = false).
      { destruct ch as [|d ch]; [congruence|]. cbn in Ecat. injection Ecat as -> _.
        unfold is_ws_chunk. cbn. rewrite Es. reflexivity. }
      rewrite Hwch.
      assert (Hdr : drop_while nsp rest = drop_while nsp (c :: s))
        by (rewrite <- Ecat; symmetry; apply drop_while_app_all, Hn).
      assert (Hlr : length rest <= f).
      { apply (f_equal (@length _)) in Ecat. rewrite length_app in Ecat. cbn in Ecat.
        destruct ch; [congruence|]. cbn in Ecat. lia. }
      specialize (IH pv' rest false Hlr). rewrite Hdr in IH.
      destruct lo.
      * rewrite words_go_word_head by exact Hc. cbn [filter].
        destruct (good_word w (take_while nsp (c :: s))) eqn:Eg.
        -- assert (Hx' : forallb (fun d => nsp d && negb (N.eqb d HYPHEN)) (take_while nsp (c :: s)) = true).
           { unfold good_word in Eg. apply andb_prop in Eg as [Eg _]. apply andb_prop in Eg as [Eg _]. exact Eg. }
           destruct (Hx Hx') as [Ech Erest].
           assert (Hr : right_ok (chunks_go ia idc f pv' rest) = true).
           { rewrite Erest. destruct (drop_while_head nsp (c :: s)) as [E0|(d & r & E0 & Hd)];
               rewrite E0.
             - rewrite chunks_go_nil. reflexivity.
             - assert (Ed : is_tw_space d = true) by (unfold nsp in Hd; apply negb_false_iff, Hd).
               rewrite Erest, E0 in Hlr. destruct f as [|f']; [cbn in Hlr; lia|].
               rewrite chunks_go_ws by exact Ed. apply take_while_all. }
           rewrite <- Ech in Eg |- *. rewrite Eg, Hr. cbn [andb app]. constructor. exact IH.
        -- apply subseq_app_l. exact IH.
      * cbn [andb app]. exact IH.
Qed.

(** ** Claim C5 *)

(** C5 (counterexample): wrapping cuts inside words.  A 101-letter word
    wrapped at width 100 is cut after its 100th letter, and at width 8 the
    hyphenated word [well-known] is cut after its hyphen; the source text
    has no whitespace at either place. *)
Lemma wrap_splits_inside_words :
  textwrap_wrap latin1_isalnum latin1_isdecimal 100 (repeat 97%N 101) =
  [repeat 97%N 100; [97%N]] /\
  textwrap_wrap latin1_isalnum latin1_isdecimal 8 (lit "the well-known rule holds here") =
  [lit "the"; lit "well-"; lit "known"; lit "rule"; lit "holds"; lit "here"].
Proof. split; vm_compute; reflexivity. Qed.

(** C5 (amended): for every text and every width of at least 1, each word
    of the text (a maximal run of characters other than [textwrap]'s
    whitespace) that has no hyphen, is no longer than the width and is not
    made only of whitespace is a word of one of the wrapped lines, whole
    and in the text's order: the list of these words is a subsequence of
    the words of the lines.  When the whole text has no hyphen, no other
    Python whitespace and no word longer than the width, the words of the
    lines are exactly the words of the text. *)
Theorem wrap_keeps_short_words (ia idc : pychar -> bool) (w : nat) (t : pystr) :
  1 <= w ->
  subseq (filter (good_word w) (words_of t)) (flat_map words_of (textwrap_wrap ia idc w t)) /\
  (plain_text t = true -> forallb (fun x => length x <=? w) (words_of t) = true ->
   flat_map words_of (textwrap_wrap ia idc w t) = words_of t).
Proof.
  intros Hw. split.
  - unfold textwrap_wrap.
    destruct (wrap_chunks_go_iso w (S (length (concat (split_chunks ia idc t))))
                (split_chunks ia idc t) [] Hw (chunks_go_shape _ _ _ _ _) ltac:(lia))
      as (L & E & HL).
    rewrite E. cbn [app]. eapply subseq_trans; [|exact HL].
    rewrite <- words_of_munge. unfold split_chunks, words_of.
    apply (chunks_go_iso ia idc w _ [] _ true). lia.
  - intros Ht Hl. apply wrap_keeps_words; assumption.
Qed.

(** The sentence of the counterexample at width 8: its four hyphen-free
    words come out whole, in order. *)
Lemma wrap_keeps_short_words_witness :
  filter (good_word 8) (words_of (lit "the well-known rule holds here")) =
  [lit "the"; lit "rule"; lit "holds"; lit "here"] /\
  subseq (filter (good_word 8) (words_of (lit "the well-known rule holds here")))
         (flat_map words_of (textwrap_wrap latin1_isalnum latin1_isdecimal 8
                               (lit "the well-known rule holds here"))).
Proof.
  split; [vm_compute; reflexivity|].
  exact (proj1 (wrap_keeps_short_words latin1_isalnum latin1_isdecimal 8
                  (lit "the well-known rule holds here") ltac:(lia))).
Defined.

(** * Further properties of the program *)


Lemma rfind_go_some (c : pychar) (s : pystr) (i : nat) (acc : option nat) (k : nat) :
  rfind_go c i s acc = Some k ->
  (i <= k /\ nth_error s (k - i) = Some c /\
   forall j, k - i < j -> nth_error s j <> Some c) \/
  (acc = Some k /\ ~ In c s).
Proof.
  revert i acc. induction s as [|d s IH]; intros i acc H; cbn [rfind_go] in H.
  - right. split; [exact H | intros []].
  - apply IH in H as [(Hik & Hn & Hmax) | (Ha & Hnin)].
    + left. split; [lia|].
      replace (k - i) with (S (k - S i)) by lia. split; [exact Hn|].
      intros [|j] Hj; [lia|]. cbn. apply Hmax. lia.
    + destruct (N.eqb_spec d c) as [->|Hdc].
      * injection Ha as <-. left. rewrite Nat.sub_diag. split; [lia|]. split; [reflexivity|].
        intros [|j] Hj; [lia|]. cbn. intros Hj'. apply Hnin. eapply nth_error_In, Hj'.
      * right. split; [exact Ha|]. intros [E|E]; [congruence|contradiction].
Qed.

Lemma rfind_go_none (c : pychar) (s : pystr) (i : nat) (acc : option nat) :
  rfind_go c i s acc = None -> acc = None /\ ~ In c s.
Proof.
  revert i acc. induction s as [|d s IH]; intros i acc H; cbn [rfind_go] in H.
  - split; [exact H | intros []].
  - apply IH in H as [Ha Hnin].
    destruct (N.eqb_spec d c) as [->|Hdc]; [discriminate|].
    split; [exact Ha|]. intros [E|E]; [congruence|contradiction].
Qed.

Lemma rfind_last (c : pychar) (s : pystr) (k : nat) :
  rfind c s (length s) = Some k ->
  nth_error s k = Some c /\ forall j, k < j -> nth_error s j <> Some c.
Proof.
  unfold rfind. rewrite firstn_all. intros H.
  apply rfind_go_some in H as [(_ & Hn & Hmax) | (Ha & _)]; [|discriminate].
  rewrite Nat.sub_0_r in Hn, Hmax. split; assumption.
Qed.

Lemma rfind_absent (c : pychar) (s : pystr) :
  rfind c s (length s) = None -> ~ In c s.
Proof.
  unfold rfind. rewrite firstn_all. intros H. apply rfind_go_none in H as [_ H]. exact H.
Qed.

Lemma nth_error_skipn' {A} (l : list A) (n j : nat) :
  nth_error (skipn n l) j = nth_error l (n + j).
Proof.
  revert n. induction l as [|x l IH]; intros [|n]; cbn; auto.
  - destruct j; reflexivity.
Qed.

(** [os.path.splitext]: the root and the extension put back together give the
    path; the extension is empty or a dot followed by no slash; a non-empty
    path has a non-empty root. *)
Theorem splitext_parts (p : pystr) :
  let '(root, ext) := splitext p in
  root ++ ext = p /\
  (ext = [] \/ exists r, ext = DOT :: r /\ ~ In SLASH r) /\
  (p <> [] -> root <> []).
Proof.
  unfold splitext.
  destruct (rfind DOT p (length p)) as [d|] eqn:Ed;
    [|split; [apply app_nil_r|split; [left; reflexivity|auto]]].
  destruct ((_ <=? d) && _) eqn:Ec;
    [|split; [apply app_nil_r|split; [left; reflexivity|auto]]].
  apply andb_prop in Ec as [Hle Hex]. apply Nat.leb_le in Hle.
  apply rfind_last in Ed as [Hd Hdmax].
  split; [apply firstn_skipn|]. split.
  - right. assert (Hlt : d < length p) by (apply nth_error_Some; congruence).
    destruct (skipn d p) as [|x r] eqn:Es.
    { apply (f_equal (@length _)) in Es. rewrite length_skipn in Es. cbn in Es. lia. }
    assert (Hx : x = DOT).
    { pose proof (nth_error_skipn' p d 0) as E. rewrite Es, Nat.add_0_r, Hd in E.
      injection E as E. exact E. }
    subst x. exists r. split; [reflexivity|]. intros Hin.
    apply In_nth_error in Hin as [j Hj].
    assert (Hj' : nth_error p (d + S j) = Some SLASH)
      by (rewrite <- nth_error_skipn', Es; exact Hj).
    destruct (rfind SLASH p (length p)) as [si|] eqn:Esl.
    + apply rfind_last in Esl as [_ Hsmax]. apply (Hsmax (d + S j)); [lia|exact Hj'].
    + apply rfind_absent in Esl. apply Esl. eapply nth_error_In, Hj'.
  - intros _ Hr. apply existsb_exists in Hex as (x & Hx & _).
    apply (f_equal (@length _)) in Hr. rewrite length_firstn in Hr. cbn [length] in Hr.
    destruct (d - _) eqn:Edd; [cbn in Hx; contradiction|].
    assert (Hlt : d < length p) by (apply nth_error_Some; congruence). lia.
Qed.

Lemma output_file_of_neq (p : pystr) : output_file_of p <> p.
Proof.
  unfold output_file_of. pose proof (splitext_parts p) as H.
  destruct (splitext p) as [root ext]. destruct H as (Hp & Hext & _). cbn [fst].
  intros E. rewrite <- Hp in E. apply app_inv_head in E.
  destruct Hext as [-> | (r & -> & _)]; discriminate.
Qed.

(** The script of pdf_text_extractor.py creates and writes a file only after
    the path was found and the text extracted; the file is
    [<root>_extracted.txt], never the input path, and receives exactly the
    extracted text. *)
Theorem extractor_main_files (file_path : pystr) (path_exists : bool) (pdf : pdf_source)
  (write : write_outcome) (e : cli_event) :
  In e (extractor_main file_path path_exists pdf write) ->
  match e with
  | CliCreate path =>
      path_exists = true /\ PdfTextExtractor.extract_pdf_text pdf <> None /\
      path = output_file_of file_path /\ path <> file_path
  | CliWrite path contents =>
      path_exists = true /\ PdfTextExtractor.extract_pdf_text pdf = Some contents /\
      path = output_file_of file_path /\ path <> file_path
  | _ => True
  end.
Proof.
  pose proof (output_file_of_neq file_path) as Hneq.
  unfold extractor_main. destruct path_exists; cbn [negb].
  2:{ intros H. repeat (destruct H as [<-|H]; [exact I|]). destruct H. }
  destruct (PdfTextExtractor.extract_pdf_text pdf) as [text|] eqn:Ex.
  2:{ intros H. repeat (destruct H as [<-|H]; [exact I|]). destruct H. }
  intros H. destruct write; cbn [app] in H;
    repeat (destruct H as [<-|H]; [repeat split; congruence|]); destruct H.
Qed.

(** The printed preview has at most 503 characters, and a text of at most
    500 characters is printed stripped, with no [...] appended. *)
Theorem preview_of_bounds (text : pystr) :
  length (preview_of text) <= 503 /\
  (length text <= 500 -> preview_of text = py_strip text).
Proof.
  assert (Hs : forall s, length (py_strip s) <= length s).
  { intros s. unfold py_strip. rewrite length_rev.
    pose proof (drop_while_length is_py_space (rev (drop_while is_py_space s))) as H1.
    pose proof (drop_while_length is_py_space s) as H2. rewrite length_rev in H1. lia. }
  unfold preview_of. split.
  - pose proof (Hs (firstn 500 text)). rewrite length_firstn in H.
    destruct (500 <? length text); [rewrite length_app; change (length (lit "...")) with 3|]; lia.
  - intros Hl. rewrite firstn_all2 by exact Hl.
    replace (500 <? length text) with false by (symmetry; apply Nat.ltb_ge; exact Hl).
    reflexivity.
Qed.


Lemma bind_some {A B} (m : M A) (k : A -> M B) (s s1 : canvas_state) (a : A) :
  m s = Some (a, s1) -> bind m k s = k a s1.
Proof. intros H. unfold bind. rewrite H. reflexivity. Qed.

Lemma bind_none {A B} (m : M A) (k : A -> M B) (s : canvas_state) :
  m s = None -> bind m k s = None.
Proof. intros H. unfold bind. rewrite H. reflexivity. Qed.

Lemma heading_eq (t : pystr) (y : Z) (evs : list event) :
  heading t (mkCanvas y evs) =
  Some (tt, mkCanvas (y - 25) (evs ++ [SetFont "Helvetica-Bold" 15; DrawString 40 y t])).
Proof.
  unfold heading, bind, emit, get_y, set_y. cbn. rewrite <- app_assoc. reflexivity.
Qed.

Lemma paragraph_layout (ia idc : pychar -> bool) (text : pystr) (y : Z) (evs : list event) :
  paragraph ia idc text (mkCanvas y evs) =
  let '(evs', y') := layout_lines (map (fun l => (40%Z, l)) (textwrap_wrap ia idc 100 text)) y in
  Some (tt, mkCanvas (y' - 10) (evs ++ SetFont "Helvetica" 11 :: evs')).
Proof.
  unfold paragraph. unfold bind at 1. unfold emit at 1. cbv beta iota. cbn [cur_y events].
  unfold bind at 1. rewrite for_each_lines.
  destruct (layout_lines _ y) as [evs' y'].
  unfold bind, get_y, set_y. cbn. rewrite <- app_assoc. reflexivity.
Qed.

Lemma layout_lines_high (ls : list (Z * pystr)) (y : Z) :
  Forall high_or_heading (fst (layout_lines ls y)).
Proof.
  revert y. induction ls as [|[x l] r IH]; intros y; cbn [layout_lines]; [constructor|].
  destruct (y <? 60)%Z eqn:Ey.
  - specialize (IH (height - 50 - line_height)%Z).
    destruct (layout_lines r _) as [e2 y2]. cbn [fst app] in *.
    constructor; [exact I|]. constructor; [left; unfold height; lia|exact IH].
  - specialize (IH (y - line_height)%Z).
    destruct (layout_lines r _) as [e2 y2]. cbn [fst app] in *.
    constructor; [left; apply Z.ltb_ge in Ey; exact Ey|exact IH].
Qed.

Lemma appends_bind (P : event -> Prop) (m k : M unit) :
  appends P m -> appends P k -> appends P (m ;;; k).
Proof.
  intros Hm Hk s s' H. unfold bind in H.
  destruct (m s) as [[[] s1]|] eqn:E1; [|discriminate].
  destruct (Hm s s1 E1) as (n1 & En1 & F1). destruct (Hk s1 s' H) as (n2 & En2 & F2).
  exists (n1 ++ n2). split; [rewrite En2, En1, app_assoc; reflexivity|].
  apply Forall_app. split; assumption.
Qed.

Lemma appends_for_each {A} (P : event -> Prop) (xs : list A) (body : A -> M unit) :
  (forall x, In x xs -> appends P (body x)) -> appends P (for_each xs body).
Proof.
  induction xs as [|x xs IH]; intros H.
  - intros s s' E. injection E as <-. exists []. rewrite app_nil_r. split; [reflexivity|constructor].
  - cbn [for_each]. apply appends_bind; [apply H; left; reflexivity|].
    apply IH. intros z Hz. apply H. right. exact Hz.
Qed.

Lemma appends_emit (P : event -> Prop) (e : event) : P e -> appends P (emit e).
Proof.
  intros He s s' E. injection E as <-. exists [e]. split; [reflexivity|].
  constructor; [exact He|constructor].
Qed.

Lemma appends_lower (P : event -> Prop) (d : Z) : appends P (y <- get_y ;; set_y (y - d)).
Proof.
  intros s s' E. injection E as <-. exists []. rewrite app_nil_r. split; [reflexivity|constructor].
Qed.

Lemma appends_heading (t : pystr) : In t pdf_headings -> appends high_or_heading (heading t).
Proof.
  intros Ht [y evs] s' E. rewrite heading_eq in E. injection E as <-.
  eexists. split; [reflexivity|]. constructor; [exact I|]. constructor; [right; exact Ht|constructor].
Qed.

Lemma appends_paragraph (ia idc : pychar -> bool) (text : pystr) :
  appends high_or_heading (paragraph ia idc text).
Proof.
  intros [y evs] s' E. rewrite paragraph_layout in E.
  pose proof (layout_lines_high (map (fun l => (40%Z, l)) (textwrap_wrap ia idc 100 text)) y) as H.
  destruct (layout_lines _ y) as [evs' y']. injection E as <-.
  eexists. split; [reflexivity|]. constructor; [exact I|exact H].
Qed.

Lemma wrap_nil (ia idc : pychar -> bool) (w : nat) : textwrap_wrap ia idc w [] = [].
Proof. reflexivity. Qed.

Lemma bullet_item_empty (ia idc : pychar -> bool) (item : pystr) (s : canvas_state) :
  textwrap_wrap ia idc 95 (py_strip (py_lstrip_chars (lit "*- ") item)) = [] ->
  bullet_item ia idc item s = None.
Proof.
  intros H. destruct s as [y evs]. unfold bullet_item. rewrite H.
  unfold page_check, bind, get_y, emit, set_y, ret, index. cbn.
  destruct (y <? 60)%Z; reflexivity.
Qed.

Lemma appends_bullet_item (ia idc : pychar -> bool) (item : pystr) :
  appends high_or_heading (bullet_item ia idc item).
Proof.
  intros [y evs] s' E.
  destruct (textwrap_wrap ia idc 95 (py_strip (py_lstrip_chars (lit "*- ") item)))
    as [|w0 rest] eqn:Ew.
  - rewrite bullet_item_empty in E by exact Ew. discriminate.
  - rewrite (bullet_item_eq ia idc item w0 rest y evs Ew) in E.
    pose proof (layout_lines_high (bullet_layout w0 rest) y) as H.
    destruct (layout_lines _ y) as [evs' y']. injection E as <-.
    eexists. split; [reflexivity|exact H].
Qed.

Lemma appends_bullet_list (ia idc : pychar -> bool) (text : pystr) :
  appends high_or_heading (bullet_list ia idc text).
Proof.
  unfold bullet_list. apply appends_bind; [apply appends_emit; exact I|].
  apply appends_bind; [|apply appends_lower].
  apply appends_for_each. intros x _. apply appends_bullet_item.
Qed.

(** In the document [generate_pdf] returns, every string drawn below the
    60pt bottom margin is one of the four headings: the lines of the text,
    bullets and glossary always start a new page first. *)
Theorem generate_pdf_low_draws (ia idc : pychar -> bool) (simplified bullets glossary : pystr)
  (evs : list event) (x y : Z) (t : pystr) :
  generate_pdf ia idc simplified bullets glossary = Some evs ->
  In (DrawString x y t) evs -> (y < 60)%Z -> In t pdf_headings.
Proof.
  intros Hg Hin Hy. unfold generate_pdf in Hg.
  destruct (generate_pdf_prog ia idc simplified bullets glossary _) as [[[] s]|] eqn:E;
    [|discriminate].
  injection Hg as <-.
  assert (Ha : appends high_or_heading (generate_pdf_prog ia idc simplified bullets glossary)).
  { unfold generate_pdf_prog.
    repeat (apply appends_bind;
      [ first [ apply appends_heading; unfold pdf_headings;
                repeat (first [left; reflexivity | right])
              | apply appends_paragraph | apply appends_bullet_list ] | ]).
    apply appends_emit. exact I. }
  destruct (Ha _ _ E) as (new & En & F). cbn [events app] in En. rewrite En in Hin.
  rewrite Forall_forall in F. destruct (F _ Hin) as [H|H]; [lia|exact H].
Qed.

Lemma py_strip_last (s : pystr) :
  py_strip s = [] \/ exists v c, py_strip s = v ++ [c] /\ is_py_space c = false.
Proof.
  unfold py_strip.
  destruct (drop_while_head is_py_space (rev (drop_while is_py_space s)))
    as [-> | (c & r & -> & Hc)]; [left; reflexivity|].
  right. exists (rev r), c. split; [reflexivity|exact Hc].
Qed.

Lemma existsb_visible_strip (s : pystr) :
  existsb (fun c => negb (is_py_space c)) (py_strip s) =
  existsb (fun c => negb (is_py_space c)) s.
Proof.
  assert (H : forall c, is_py_space c = true -> negb (is_py_space c) = false)
    by (intros c ->; reflexivity).
  unfold py_strip.
  rewrite existsb_rev, existsb_drop_while, existsb_rev, existsb_drop_while by exact H.
  reflexivity.
Qed.

Lemma drop_while_nil_forallb (p : pychar -> bool) (s : pystr) :
  drop_while p s = [] <-> forallb p s = true.
Proof.
  induction s as [|c s IH]; [split; reflexivity|]. cbn [drop_while forallb].
  destruct (p c); cbn [andb]; [exact IH|split; discriminate].
Qed.

Lemma clean_nil_iff (line : pystr) :
  py_strip (py_lstrip_chars (lit "*- ") (py_strip line)) = [] <->
  forallb (fun c => existsb (N.eqb c) (lit "*- ")) (py_strip line) = true.
Proof.
  unfold py_lstrip_chars. split.
  - intros H. apply drop_while_nil_forallb.
    set (mk := fun c => existsb (N.eqb c) (lit "*- ")) in *.
    destruct (drop_while_suffix mk (py_strip line)) as [pre Epre].
    destruct (drop_while mk (py_strip line)) as [|d r] eqn:Ed; [reflexivity|exfalso].
    destruct (py_strip_last line) as [E|(v & c & E & Hc)]; [rewrite E in Epre; destruct pre; discriminate|].
    destruct (exists_last (l := d :: r) ltac:(discriminate)) as (w & e & Ew).
    rewrite E, Ew, app_assoc in Epre. apply app_inj_tail in Epre as [_ <-].
    assert (Hx : existsb (fun c => negb (is_py_space c)) (d :: r) = true).
    { rewrite Ew, existsb_app. cbn. rewrite Hc. apply orb_true_r. }
    assert (H2 : py_strip (d :: r) = []) by (rewrite <- Ed; exact H).
    rewrite <- existsb_visible_strip, H2 in Hx. discriminate.
  - intros H. apply drop_while_nil_forallb in H.
    match goal with |- context [drop_while ?p (py_strip line)] =>
      replace (drop_while p (py_strip line)) with (@nil pychar) by (symmetry; exact H) end.
    reflexivity.
Qed.

Lemma bullet_item_none_iff (ia idc : pychar -> bool) (item : pystr) (s : canvas_state) :
  bullet_item ia idc item s = None <-> py_strip (py_lstrip_chars (lit "*- ") item) = [].
Proof.
  split.
  - intros H. destruct (py_strip_head (py_lstrip_chars (lit "*- ") item))
      as [E|(c & r & E & Hc)]; [exact E|exfalso].
    pose proof (wrap_nonempty ia idc 95 c r ltac:(lia) Hc) as Hw. rewrite <- E in Hw.
    destruct (textwrap_wrap ia idc 95 _) as [|w0 rest] eqn:Ew; [congruence|].
    destruct s as [y evs]. rewrite (bullet_item_eq ia idc item w0 rest y evs Ew) in H.
    destruct (layout_lines _ y). discriminate.
  - intros H. apply bullet_item_empty. rewrite H. apply wrap_nil.
Qed.

Lemma for_each_none_iff {A} (xs : list A) (body : A -> M unit) (bad : A -> bool) :
  (forall x s, body x s = None <-> bad x = true) ->
  forall s, for_each xs body s = None <-> existsb bad xs = true.
Proof.
  intros Hb. induction xs as [|x xs IH]; intros s.
  - cbn. split; discriminate.
  - cbn [for_each existsb]. unfold bind at 1.
    destruct (body x s) as [[[] s1]|] eqn:E.
    + assert (Hx : bad x = false)
        by (destruct (bad x) eqn:Ex; [apply (proj2 (Hb x s)) in Ex; congruence|reflexivity]).
      rewrite Hx. exact (IH s1).
    + apply (proj1 (Hb x s)) in E. rewrite E. split; reflexivity.
Qed.

Lemma existsb_map_filter {A B} (f : B -> bool) (g : A -> B) (h : A -> bool) (l : list A) :
  existsb f (map g (filter h l)) = existsb (fun x => h x && f (g x)) l.
Proof.
  induction l as [|x l IH]; [reflexivity|]. cbn [filter existsb].
  destruct (h x); cbn [map existsb andb]; rewrite IH; reflexivity.
Qed.

Lemma existsb_ext_eq {A} (f g : A -> bool) (l : list A) :
  (forall x, f x = g x) -> existsb f l = existsb g l.
Proof. intros H. induction l as [|x l IH]; [reflexivity|]. cbn. rewrite H, IH. reflexivity. Qed.

Lemma marker_only_clean (line : pystr) :
  negb (is_nil (py_strip line)) &&
  is_nil (py_strip (py_lstrip_chars (lit "*- ") (py_strip line))) = marker_only line.
Proof.
  unfold marker_only. cbv zeta. f_equal.
  destruct (is_nil _) eqn:Ec.
  - symmetry. apply clean_nil_iff, is_nil_true, Ec.
  - destruct (forallb _ _) eqn:Ef; [|reflexivity].
    apply clean_nil_iff in Ef. rewrite Ef in Ec. discriminate.
Qed.

Lemma bullet_list_none_iff (ia idc : pychar -> bool) (text : pystr) (s : canvas_state) :
  bullet_list ia idc text s = None <-> existsb marker_only (py_split NL text) = true.
Proof.
  assert (Hf : forall st, for_each (list_items_of text) (bullet_item ia idc) st = None <->
                 existsb marker_only (py_split NL text) = true).
  { intros st. rewrite (for_each_none_iff _ _ (fun it => is_nil (py_strip (py_lstrip_chars (lit "*- ") it)))).
    - unfold list_items_of. rewrite existsb_map_filter.
      rewrite (existsb_ext_eq _ marker_only) by apply marker_only_clean. reflexivity.
    - intros x st'. rewrite bullet_item_none_iff.
      split; [intros ->; reflexivity|apply is_nil_true]. }
  unfold bullet_list. unfold bind at 1. unfold emit at 1. cbv beta iota.
  unfold bind at 1. rewrite <- (Hf (mkCanvas (cur_y s) (events s ++ [SetFont "Helvetica" 11]))).
  destruct (for_each _ _ _) as [[[] s1]|]; split; (discriminate || reflexivity).
Qed.

Lemma paragraph_some (ia idc : pychar -> bool) (text : pystr) (s : canvas_state) :
  exists s', paragraph ia idc text s = Some (tt, s').
Proof.
  destruct s as [y evs]. rewrite paragraph_layout.
  destruct (layout_lines _ y). eexists. reflexivity.
Qed.

Lemma heading_some (t : pystr) (s : canvas_state) :
  exists s', heading t s = Some (tt, s').
Proof. destruct s as [y evs]. rewrite heading_eq. eexists. reflexivity. Qed.

Ltac step_some lem :=
  match goal with |- context [bind ?m ?k ?s] =>
    let s1 := fresh "s" in let E := fresh "E" in
    destruct (lem s) as [s1 E]; rewrite (bind_some m k s s1 tt E) end.

(** [generate_pdf] raises exactly when a line of the bullets or of the
    glossary is not blank and holds only ['*'], ['-'] and spaces once
    stripped. *)
Theorem generate_pdf_none_iff (ia idc : pychar -> bool) (simplified bullets glossary : pystr) :
  generate_pdf ia idc simplified bullets glossary = None <->
  existsb marker_only (py_split NL bullets ++ py_split NL glossary) = true.
Proof.
  rewrite existsb_app. unfold generate_pdf.
  transitivity (generate_pdf_prog ia idc simplified bullets glossary
                  (mkCanvas (height - 50) []) = None).
  { destruct (generate_pdf_prog _ _ _ _ _ _) as [[u s]|]; split; (discriminate || reflexivity). }
  unfold generate_pdf_prog.
  step_some (heading_some (lit "Simplified PDF Output")).
  step_some (heading_some (lit "1. Simplified Text")).
  step_some (paragraph_some ia idc simplified).
  step_some (heading_some (lit "2. Bullet Points Summary")).
  match goal with |- context [bind (bullet_list ia idc bullets) ?k ?s] =>
    pose proof (bullet_list_none_iff ia idc bullets s) as Hb;
    destruct (bullet_list ia idc bullets s) as [[[] s4]|] eqn:E4 end.
  2:{ rewrite bind_none by exact E4. split; [intros _|reflexivity].
      rewrite (proj1 Hb) by (try rewrite E4; reflexivity). reflexivity. }
  assert (Hb' : existsb marker_only (py_split NL bullets) = false)
    by (apply not_true_is_false; intros Ex; apply Hb in Ex; discriminate).
  rewrite Hb', orb_false_l. rewrite (bind_some _ _ _ _ _ E4).
  step_some (heading_some (lit "3. Glossary")).
  match goal with |- context [bind (bullet_list ia idc glossary) ?k ?s] =>
    rewrite <- (bullet_list_none_iff ia idc glossary s);
    destruct (bullet_list ia idc glossary s) as [[[] s6]|] eqn:E6 end.
  - rewrite (bind_some _ _ _ _ _ E6). unfold emit. split; discriminate.
  - rewrite bind_none by exact E6. split; reflexivity.
Qed.


Lemma handle_long_word_bound (ch : pystr) (rest cl : list pystr) (n w : nat) :
  1 <= w -> n <= w ->
  exists e, fst (handle_long_word (ch :: rest) cl n w) = cl ++ [firstn e ch] /\ e <= w - n.
Proof.
  intros Hw Hn. unfold handle_long_word.
  assert (Es : (w <? 1) = false) by (apply Nat.ltb_ge; lia). rewrite Es.
  destruct (w - n <? length ch); [|exists (w - n); split; [reflexivity|lia]].
  destruct (rfind HYPHEN ch (w - n)) as [h|] eqn:Er; [|exists (w - n); split; [reflexivity|lia]].
  apply rfind_bound in Er.
  destruct ((0 <? h) && _); [exists (h + 1)|exists (w - n)]; split; (reflexivity || lia).
Qed.

Lemma concat_drop_blank_length (cl : list pystr) :
  length (concat (match rev cl with
                  | last :: before => if blank last then rev before else cl
                  | [] => cl
                  end)) <= length (concat cl).
Proof.
  destruct (rev cl) as [|last before] eqn:E; [lia|].
  destruct (blank last); [|lia].
  assert (Ecl : cl = rev before ++ [last])
    by (rewrite <- (rev_involutive cl), E; reflexivity).
  rewrite Ecl. rewrite concat_app, length_app. lia.
Qed.

Lemma wrap_round_width (w : nat) (chs lines : list pystr) :
  1 <= w -> Forall (fun l => length l <= w) lines ->
  Forall (fun l => length l <= w) (snd (wrap_round w chs lines)).
Proof.
  intros Hw Hl. unfold wrap_round.
  match goal with |- context [take_fitting w 0 ?c1 []] =>
    destruct (take_fitting_spec w 0 c1 []) as (added & r & Et & _ & Hle & _) end.
  rewrite Et. cbn [app Nat.add] in *. specialize (Hle (Nat.le_0_l w)).
  assert (H2 : forall cl2 c3 : list pystr,
    length (concat cl2) <= w ->
    Forall (fun l => length l <= w)
      (snd (let cur_line3 := match rev cl2 with
                             | last :: before => if blank last then rev before else cl2
                             | [] => cl2
                             end in
            (c3, if is_nil cur_line3 then lines else lines ++ [concat cur_line3])))).
  { intros cl2 c3 Hc. cbn zeta. cbn [snd].
    match goal with |- context [if is_nil ?x then _ else _] => destruct (is_nil x) end; [exact Hl|].
    apply Forall_app. split; [exact Hl|]. constructor; [|constructor].
    eapply Nat.le_trans; [apply concat_drop_blank_length|exact Hc]. }
  destruct r as [|ch r']; [apply H2; exact Hle|].
  destruct (w <? length ch); [|apply H2; exact Hle].
  destruct (handle_long_word_bound ch r' added (length (concat added)) w Hw Hle) as (e & Ee & He).
  destruct (handle_long_word (ch :: r') added _ w) as [cl2 c3]. cbn [fst] in Ee. subst cl2.
  apply H2. rewrite concat_app, length_app. cbn [concat app]. rewrite app_nil_r, length_firstn. lia.
Qed.

Lemma wrap_chunks_go_width (f w : nat) (chs lines : list pystr) :
  1 <= w -> Forall (fun l => length l <= w) lines ->
  Forall (fun l => length l <= w) (wrap_chunks_go f w chs lines).
Proof.
  revert chs lines. induction f as [|f IH]; intros chs lines Hw Hl; cbn; [exact Hl|].
  destruct chs as [|ch chs]; [exact Hl|].
  pose proof (wrap_round_width w (ch :: chs) lines Hw Hl) as H.
  destruct (wrap_round w (ch :: chs) lines) as [c' l']. apply IH; assumption.
Qed.

(** No line returned by [textwrap.wrap] with a width of at least 1 is longer
    than the width (long words are broken). *)
Theorem wrap_lines_fit (ia idc : pychar -> bool) (w : nat) (text line : pystr) :
  1 <= w -> In line (textwrap_wrap ia idc w text) -> length line <= w.
Proof.
  intros Hw Hin. unfold textwrap_wrap in Hin.
  pose proof (wrap_chunks_go_width (S (length (concat (split_chunks ia idc text)))) w
                (split_chunks ia idc text) [] Hw (Forall_nil _)) as H.
  rewrite Forall_forall in H. exact (H line Hin).
Qed.



Lemma py_strip_ends (s : pystr) :
  py_strip s = [] \/
  (is_py_space (hd 0%N (py_strip s)) = false /\ is_py_space (last (py_strip s) 0%N) = false).
Proof.
  destruct (py_strip_head s) as [E|(c & r & E & Hc)]; [left; exact E|right].
  destruct (py_strip_last s) as [E'|(v & d & E' & Hd)]; [rewrite E' in E; discriminate|].
  split; [rewrite E; exact Hc|rewrite E', last_last; exact Hd].
Qed.

(** Each of the three sections cut out of the reply is empty or starts and
    ends with a non-whitespace character. *)
Theorem split_sections_stripped (output : pystr) (b : SectionBundle) :
  split_sections output = Some b ->
  forall field, In field [simplified b; bullets b; glossary b] ->
  field = [] \/
  (is_py_space (hd 0%N field) = false /\ is_py_space (last field 0%N) = false).
Proof.
  rewrite split_sections_eq. intros H field Hin.
  destruct (partition_first SEC2 output) as [[b2 a2]|]; [|discriminate].
  destruct (partition_first SEC3 output) as [[b3 a3]|]; [|discriminate].
  injection H as <-. cbn [simplified bullets glossary In] in Hin.
  destruct Hin as [<-|[<-|[<-|[]]]]; apply py_strip_ends.
Qed.

Lemma str_in_nil_sep (s : pystr) : str_in [] s = true.
Proof. destruct s; reflexivity. Qed.

Lemma str_in_app_r (p x y : pystr) : str_in p (x ++ y) = false -> str_in p y = false.
Proof.
  induction x as [|c x IH]; intros H; [exact H|].
  cbn [app str_in] in H. apply orb_false_iff in H as [_ H]. exact (IH H).
Qed.

Lemma str_in_app_l (p x y : pystr) : str_in p (x ++ y) = false -> str_in p x = false.
Proof.
  destruct p as [|c0 p'] eqn:Ep; [rewrite str_in_nil_sep; discriminate|].
  rewrite <- Ep. intros H. induction x as [|c x IH].
  - subst p. reflexivity.
  - cbn [app str_in] in H |- *. apply orb_false_iff in H as [H1 H2].
    rewrite (IH H2), orb_false_r.
    destruct (startswith p (c :: x)) eqn:Es; [|reflexivity].
    apply (startswith_app_r _ _ y) in Es. cbn [app] in Es. congruence.
Qed.

Lemma py_strip_infix (s : pystr) : exists a c, s = a ++ py_strip s ++ c.
Proof.
  destruct (drop_while_suffix is_py_space s) as [pre E1].
  destruct (drop_while_suffix is_py_space (rev (drop_while is_py_space s))) as [pre2 E2].
  exists pre, (rev pre2). unfold py_strip.
  rewrite <- rev_app_distr, <- E2, rev_involutive. exact E1.
Qed.

Lemma str_in_strip (p s : pystr) : str_in p s = false -> str_in p (py_strip s) = false.
Proof.
  intros H. destruct (py_strip_infix s) as (a & c & E). rewrite E in H.
  apply str_in_app_r, str_in_app_l in H. exact H.
Qed.

Lemma partition_first_before_free (sep s a b : pystr) :
  sep <> [] -> partition_first sep s = Some (a, b) -> str_in sep a = false.
Proof.
  intros Hsep. revert a b. induction s as [|c s IH]; intros a b H.
  - rewrite partition_first_unfold in H.
    destruct sep as [|d sep']; [congruence|]. discriminate.
  - pose proof (partition_first_spec _ _ _ _ H) as Es.
    rewrite partition_first_unfold in H.
    destruct (startswith sep (c :: s)) eqn:Est.
    + injection H as <- _. destruct sep as [|d sep']; [congruence|reflexivity].
    + destruct (partition_first sep s) as [[a' b']|] eqn:E'; [|discriminate].
      injection H as <- <-. cbn [str_in]. rewrite (IH a' b' eq_refl), orb_false_r.
      destruct (startswith sep (c :: a')) eqn:Ea; [|reflexivity].
      apply (startswith_app_r _ _ (sep ++ b')) in Ea.
      rewrite <- Es in Ea. congruence.
Qed.

Lemma before_first_free (sep s : pystr) :
  sep <> [] -> str_in sep (before_first sep s) = false.
Proof.
  intros Hsep. unfold before_first.
  destruct (partition_first sep s) as [[a b]|] eqn:E.
  - exact (partition_first_before_free sep s a b Hsep E).
  - apply partition_first_none_iff, E.
Qed.

Lemma before_first_prefix (sep s : pystr) : exists r, s = before_first sep s ++ r.
Proof.
  unfold before_first. destruct (partition_first sep s) as [[a b]|] eqn:E.
  - apply partition_first_spec in E. eexists. exact E.
  - exists []. rewrite app_nil_r. reflexivity.
Qed.

(** The bullets contain neither the section-2 delimiter nor
    [=== SECTION 3], and the glossary does not contain the section-3
    delimiter. *)
Theorem split_sections_no_delimiters (output : pystr) (b : SectionBundle) :
  split_sections output = Some b ->
  str_in SEC2 (bullets b) = false /\ str_in SEC3_MARK (bullets b) = false /\
  str_in SEC3 (glossary b) = false.
Proof.
  rewrite split_sections_eq. intros H.
  destruct (partition_first SEC2 output) as [[b2 a2]|]; [|discriminate].
  destruct (partition_first SEC3 output) as [[b3 a3]|]; [|discriminate].
  injection H as <-. cbn [bullets glossary].
  split; [|split]; apply str_in_strip.
  - destruct (before_first_prefix SEC3_MARK (before_first SEC2 a2)) as [r E].
    apply (str_in_app_l _ _ r). rewrite <- E. apply before_first_free. discriminate.
  - apply before_first_free. discriminate.
  - apply before_first_free. discriminate.
Qed.


Lemma lor_shiftl_small (x y k : N) :
  (y < 2 ^ k)%N -> N.lor (N.shiftl x k) y = (x * 2 ^ k + y)%N.
Proof.
  intros Hy. assert (Hk : (2 ^ k <> 0)%N) by (apply N.pow_nonzero; discriminate).
  apply N.bits_inj. intros i. rewrite N.lor_spec.
  destruct (N.lt_ge_cases i k) as [Hi|Hi].
  - rewrite N.shiftl_spec_low by exact Hi. cbn [orb].
    rewrite <- (N.mod_pow2_bits_low (x * 2 ^ k + y) k i Hi).
    rewrite N.add_comm, N.Div0.mod_add, N.mod_small by exact Hy. reflexivity.
  - rewrite N.shiftl_spec_high' by exact Hi.
    rewrite <- (N.mod_small y (2 ^ k)) at 1 by exact Hy.
    rewrite N.mod_pow2_bits_high by exact Hi. rewrite orb_false_r.
    replace i with ((i - k) + k)%N at 2 by lia.
    rewrite <- N.div_pow2_bits.
    rewrite N.div_add_l by exact Hk. rewrite N.div_small by exact Hy.
    rewrite N.add_0_r. reflexivity.
Qed.


Lemma b64_group1 (a : N) : N.shiftr a 2 = (a / 4)%N.
Proof. rewrite N.shiftr_div_pow2. reflexivity. Qed.

Lemma b64_group2 (a b : N) : (b < 256)%N ->
  N.lor (N.shiftl (N.land a 3) 4) (N.shiftr b 4) = ((a mod 4) * 16 + b / 16)%N.
Proof.
  intros Hb. change 3%N with (N.ones 2). rewrite N.shiftr_div_pow2, N.land_ones, lor_shiftl_small.
  - reflexivity.
  - change (2 ^ 4)%N with 16%N. apply N.Div0.div_lt_upper_bound. lia.
Qed.

Lemma b64_group3 (b c : N) : (c < 256)%N ->
  N.lor (N.shiftl (N.land b 15) 2) (N.shiftr c 6) = ((b mod 16) * 4 + c / 64)%N.
Proof.
  intros Hc. change 15%N with (N.ones 4). rewrite N.shiftr_div_pow2, N.land_ones, lor_shiftl_small.
  - reflexivity.
  - change (2 ^ 2)%N with 4%N. apply N.Div0.div_lt_upper_bound. lia.
Qed.

Lemma b64_shiftl (a : N) (k m : N) :
  N.shiftl (N.land a (N.ones k)) m = ((a mod 2 ^ k) * 2 ^ m)%N.
Proof. rewrite N.land_ones, N.shiftl_mul_pow2. reflexivity. Qed.

Lemma b64_value_char_all :
  forallb (fun v => match b64_value (b64_char (N.of_nat v)) with
                    | Some w => N.eqb w (N.of_nat v)
                    | None => false
                    end) (seq 0 64) = true.
Proof. vm_compute. reflexivity. Qed.

Lemma b64_value_char (v : N) : (v < 64)%N -> b64_value (b64_char v) = Some v.
Proof.
  intros Hv. pose proof b64_value_char_all as H. rewrite forallb_forall in H.
  specialize (H (N.to_nat v) ltac:(apply in_seq; lia)).
  rewrite N2Nat.id in H.
  destruct (b64_value (b64_char v)) as [w|]; [|discriminate].
  apply N.eqb_eq in H. subst. reflexivity.
Qed.

Lemma b64_char_not_pad (v : N) : (v < 64)%N -> N.eqb (b64_char v) PAD = false.
Proof.
  intros Hv. destruct (N.eqb_spec (b64_char v) PAD) as [E|]; [|reflexivity].
  pose proof (b64_value_char v Hv) as H. rewrite E in H. discriminate.
Qed.

Ltac nlia := zify; Z.to_euclidean_division_equations; lia.

(** The base64 text of the preview decodes (RFC 4648) back to the bytes of
    the PDF. *)
Theorem b64_round_trip (data : list N) :
  Forall (fun x => (x < 256)%N) data -> b64decode (b64encode data) = Some data.
Proof.
  intros Hd. remember (length data) as n eqn:En.
  revert data Hd En. induction n as [n IH] using lt_wf_ind. intros data Hd En.
  destruct data as [|a [|b [|c rest]]].
  - reflexivity.
  - apply Forall_cons_iff in Hd as [Ha _]. cbn [b64encode].
    rewrite b64_group1. change 3%N with (N.ones 2). rewrite (b64_shiftl a 2 4).
    change (2 ^ 2)%N with 4%N. change (2 ^ 4)%N with 16%N. cbn [b64decode].
    rewrite (b64_value_char (a / 4)) by nlia.
    rewrite (b64_value_char (a mod 4 * 16)) by nlia.
    cbn [N.eqb Pos.eqb PAD is_nil andb].
    f_equal. f_equal. nlia.
  - apply Forall_cons_iff in Hd as [Ha Hd]. apply Forall_cons_iff in Hd as [Hb _].
    cbn [b64encode].
    rewrite b64_group1, b64_group2 by exact Hb. change 15%N with (N.ones 4).
    rewrite (b64_shiftl b 4 2). change (2 ^ 2)%N with 4%N. change (2 ^ 4)%N with 16%N.
    cbn [b64decode].
    rewrite (b64_value_char (a / 4)) by nlia.
    rewrite (b64_value_char (a mod 4 * 16 + b / 16)) by nlia.
    rewrite (b64_char_not_pad (b mod 16 * 4)) by nlia.
    rewrite (b64_value_char (b mod 16 * 4)) by nlia.
    cbn [N.eqb Pos.eqb PAD is_nil andb]. f_equal. f_equal; [|f_equal]; nlia.
  - apply Forall_cons_iff in Hd as [Ha Hd]. apply Forall_cons_iff in Hd as [Hb Hd].
    apply Forall_cons_iff in Hd as [Hc Hr]. cbn [b64encode].
    rewrite b64_group1, b64_group2, b64_group3 by assumption.
    change 63%N with (N.ones 6). rewrite N.land_ones. change (2 ^ 6)%N with 64%N.
    cbn [b64decode].
    rewrite (b64_value_char (a / 4)) by nlia.
    rewrite (b64_value_char (a mod 4 * 16 + b / 16)) by nlia.
    rewrite (b64_char_not_pad (b mod 16 * 4 + c / 64)) by nlia.
    rewrite (b64_value_char (b mod 16 * 4 + c / 64)) by nlia.
    rewrite (b64_char_not_pad (c mod 64)) by nlia.
    rewrite (b64_value_char (c mod 64)) by nlia.
    cbn in En. rewrite (IH (length rest)) by (lia || reflexivity || exact Hr).
    f_equal. f_equal; [|f_equal; [|f_equal]]; nlia.
Qed.

Lemma b64_char_in (v : N) : existsb (N.eqb (b64_char v)) (b64_alphabet ++ [PAD]) = true.
Proof.
  unfold b64_char. apply existsb_exists.
  destruct (Nat.lt_ge_cases (N.to_nat v) (length b64_alphabet)) as [H|H].
  - exists (nth (N.to_nat v) b64_alphabet PAD). split; [apply in_or_app; left; apply nth_In, H|].
    apply N.eqb_refl.
  - rewrite nth_overflow by exact H. exists PAD.
    split; [apply in_or_app; right; left; reflexivity|apply N.eqb_refl].
Qed.

(** [base64.b64encode] gives four characters per started group of three
    bytes, all from the base64 alphabet or [=]. *)
Theorem b64encode_shape (data : list N) :
  length (b64encode data) = 4 * ((length data + 2) / 3) /\
  forallb (fun c => existsb (N.eqb c) (b64_alphabet ++ [PAD])) (b64encode data) = true.
Proof.
  remember (length data) as n eqn:En.
  revert data En. induction n as [n IH] using lt_wf_ind. intros data En.
  assert (Hp : existsb (N.eqb PAD) (b64_alphabet ++ [PAD]) = true) by reflexivity.
  destruct data as [|a [|b [|c rest]]]; subst n.
  - split; reflexivity.
  - cbn [b64encode forallb length]. rewrite !b64_char_in, Hp. split; reflexivity.
  - cbn [b64encode forallb length]. rewrite !b64_char_in, Hp. split; reflexivity.
  - cbn [b64encode forallb length].
    destruct (IH (length rest) ltac:(cbn; lia) rest eq_refl) as [Hl Hf].
    rewrite !b64_char_in, Hf. split; [|reflexivity].
    rewrite Hl. replace (S (S (S (length rest))) + 2) with (1 * 3 + (length rest + 2)) by lia.
    rewrite Nat.div_add_l by discriminate. lia.
Qed.



Lemma split_sections_some_delims (output : pystr) (b : SectionBundle) :
  split_sections output = Some b -> str_in SEC2 output = true /\ str_in SEC3 output = true.
Proof.
  rewrite split_sections_eq. intros H.
  destruct (partition_first SEC2 output) as [[b2 a2]|] eqn:E2; [|discriminate].
  destruct (partition_first SEC3 output) as [[b3 a3]|] eqn:E3; [|discriminate].
  split; apply not_false_is_true; intros Hf; apply partition_first_none_iff in Hf; congruence.
Qed.

Lemma split_sections_fails_iff (output : pystr) :
  split_sections output = None <->
  str_in SEC2 output = false \/ str_in SEC3 output = false.
Proof.
  rewrite split_sections_eq, <- !partition_first_none_iff.
  destruct (partition_first SEC2 output) as [[b2 a2]|];
  destruct (partition_first SEC3 output) as [[b3 a3]|];
    split; intros H; try discriminate; try reflexivity;
    try (left; reflexivity); try (right; reflexivity);
    destruct H; discriminate.
Qed.

(** A click on Simplify shows an error exactly when the model call raises,
    the reply lacks a delimiter, or [generate_pdf] raises on its sections;
    the download is offered exactly when no error is shown. *)
Theorem simplify_handler_outcome (ia idc : pychar -> bool) (gc : pystr -> option pystr)
  (raw : pystr) :
  let evs := simplify_handler ia idc gc raw in
  (In UiError evs <->
   match gc (simplify_prompt raw) with
   | None => True
   | Some output =>
       str_in SEC2 output = false \/ str_in SEC3 output = false \/
       exists b, split_sections output = Some b /\
         existsb marker_only (py_split NL (bullets b) ++ py_split NL (glossary b)) = true
   end) /\
  ((exists pdf, In (UiDownload pdf) evs) <-> ~ In UiError evs).
Proof.
  cbv zeta. unfold simplify_handler.
  destruct (gc (simplify_prompt raw)) as [output|].
  2:{ cbn. split; [tauto|]. split; [intros (pdf & [H|[H|[]]]); discriminate|tauto]. }
  destruct (split_sections output) as [b|] eqn:Es.
  - destruct (split_sections_some_delims output b Es) as [H2 H3].
    rewrite H2, H3.
    destruct (generate_pdf ia idc (simplified b) (bullets b) (glossary b)) as [pdf|] eqn:Eg.
    + assert (Hm : existsb marker_only (py_split NL (bullets b) ++ py_split NL (glossary b)) = false).
      { apply not_true_is_false. intros Hm. apply (proj2 (generate_pdf_none_iff ia idc (simplified b) (bullets b) (glossary b))) in Hm. congruence. }
      split.
      * split; [intros [H|[H|[H|[]]]]; discriminate|].
        intros [H|[H|(b' & Eb & H)]]; try discriminate.
        injection Eb as <-. congruence.
      * split; [intros _ [H|[H|[H|[]]]]; discriminate|intros _; exists pdf; right; right; left; reflexivity].
    + apply generate_pdf_none_iff in Eg.
      split.
      * split; [intros _; right; right; exists b; split; [reflexivity|exact Eg]|].
        intros _. right. right. left. reflexivity.
      * split; [intros (pdf & [H|[H|[H|[]]]]); discriminate|].
        intros H. exfalso. apply H. right. right. left. reflexivity.
  - apply split_sections_fails_iff in Es.
    cbn. split; [split; [intros _; destruct Es as [E|E]; [left|right; left]; exact E|intros _; right; left; reflexivity]|].
    split; [intros (pdf & [H|[H|[]]]); discriminate|]. intros H. exfalso. apply H. right. left. reflexivity.
Qed.


Lemma on_upload_events (ss : session) (uf : option upload) (e : ui_event) :
  In e (snd (on_upload ss uf)) -> e = UiError \/ e = UiSuccess.
Proof.
  unfold on_upload. destruct uf as [f|]; [|intros []].
  destruct (match uploaded_file_obj ss with Some o => _ | None => true end); [|intros []].
  cbn [snd]. intros H. apply in_app_or in H. destruct H as [H|[H|[]]]; [|right; congruence].
  left. unfold extract_errors in H. destruct (up_pdf f) as [|pages].
  - destruct H as [H|[]]; congruence.
  - destruct (extract_pages pages []); [destruct H|destruct H as [H|[]]; congruence].
Qed.

Lemma on_upload_answer (ss : session) (uf : option upload) :
  chat_answer (fst (on_upload ss uf)) = chat_answer ss.
Proof.
  unfold on_upload. destruct uf as [f|]; [|reflexivity].
  destruct (match uploaded_file_obj ss with Some o => _ | None => true end); reflexivity.
Qed.

Lemma simplify_handler_events (ia idc : pychar -> bool) (gc : pystr -> option pystr)
  (raw : pystr) (e : ui_event) :
  In e (simplify_handler ia idc gc raw) ->
  e = UiModelCall (simplify_prompt raw) \/ e = UiError \/
  (exists b, e = UiSections b) \/ (exists d, e = UiDownload d).
Proof.
  unfold simplify_handler. intros [H|H]; [left; congruence|].
  destruct (gc (simplify_prompt raw)) as [output|]; [|destruct H as [H|[]]; right; left; congruence].
  destruct (split_sections output) as [b|]; [|destruct H as [H|[]]; right; left; congruence].
  destruct H as [H|H]; [right; right; left; exists b; congruence|].
  destruct (generate_pdf ia idc (simplified b) (bullets b) (glossary b)) as [pdf|];
    destruct H as [H|[]]; [right; right; right; exists pdf|right; left]; congruence.
Qed.

Lemma chat_handler_spec (gc : pystr -> option pystr) (ss : session) (q : pystr)
  (ask : bool) (ss2 : session) (ev : list ui_event) :
  chat_handler gc ss q ask = (ss2, ev) ->
  raw_text ss2 = raw_text ss /\ uploaded_file_obj ss2 = uploaded_file_obj ss /\
  (forall e, In e ev -> e = UiError \/
     (ask = true /\ raw_text ss <> [] /\ py_strip q <> [] /\
      e = UiModelCall (chat_prompt (raw_text ss) q))).
Proof.
  unfold chat_handler.
  destruct ask; cbn [andb]; [|intros H; injection H as <- <-; repeat split; intros e []].
  destruct (is_nil (py_strip q)) eqn:Eq; cbn [negb];
    [intros H; injection H as <- <-; repeat split; intros e []|].
  destruct (is_nil (raw_text ss)) eqn:Er.
  - intros H; injection H as <- <-. repeat split. intros e [H|[]]. left. congruence.
  - assert (Hr : raw_text ss <> []) by (intros E; rewrite E in Er; discriminate).
    assert (Hq : py_strip q <> []) by (intros E; rewrite E in Eq; discriminate).
    destruct (gc (chat_prompt (raw_text ss) q)) as [reply|].
    + intros H; injection H as <- <-. repeat split. intros e [H|[]].
      right. repeat split; congruence.
    + intros H; injection H as <- <-. repeat split. intros e [H|[H|[]]].
      * right. repeat split; congruence.
      * left. congruence.
Qed.

Ltac in_list := first [reflexivity | left; in_list | right; in_list].
Ltac in_goal := repeat (rewrite in_app_iff || cbn [In]); in_list.

(** Every model call of a run is the simplify prompt, after a click on
    Simplify with a file uploaded, or the chat prompt, after a click on Ask
    with a non-blank question, some stored text and no click on Clear. *)
Theorem app_run_model_calls (ia idc : pychar -> bool) (gc : pystr -> option pystr)
  (ss : session) (uf : option upload) (simplify : bool) (question : pystr)
  (ask clear : bool) (ss' : session) (evs : list ui_event) (p : pystr) :
  app_run ia idc gc ss uf simplify question ask clear = (ss', evs) ->
  In (UiModelCall p) evs ->
  (uf <> None /\ simplify = true /\
   p = simplify_prompt (raw_text (fst (on_upload ss uf)))) \/
  (clear = false /\ ask = true /\ raw_text (fst (on_upload ss uf)) <> [] /\
   py_strip question <> [] /\
   p = chat_prompt (raw_text (fst (on_upload ss uf))) question).
Proof.
  unfold app_run. destruct (on_upload ss uf) as [ss1 ev1] eqn:Eu. cbn [fst].
  assert (Hev1 : forall e, In e ev1 -> e = UiError \/ e = UiSuccess)
    by (intros e; replace ev1 with (snd (on_upload ss uf)) by (rewrite Eu; reflexivity);
        apply on_upload_events).
  assert (Hsim : In (UiModelCall p)
            (match uf with Some _ => if simplify then simplify_handler ia idc gc (raw_text ss1) else [] | None => [] end) ->
          uf <> None /\ simplify = true /\ p = simplify_prompt (raw_text ss1)).
  { destruct uf as [f|]; [|intros []]. destruct simplify; [|intros []].
    intros H. apply simplify_handler_events in H.
    destruct H as [H|[H|[[b H]|[d H]]]]; try discriminate.
    injection H as ->. repeat split; discriminate. }
  assert (H34 : ~ In (UiModelCall p)
            ((match uploaded_file_obj ss1 with Some o => [UiPreview (b64encode (up_bytes o))] | None => [UiInfo] end)
             ++ (if is_nil (raw_text ss1) then [UiWarning] else []))).
  { intros H. apply in_app_or in H.
    destruct (uploaded_file_obj ss1); destruct (is_nil (raw_text ss1));
      cbn in H; destruct H as [[H|[]]|H]; try discriminate;
      repeat (destruct H as [H|H]; [discriminate|]); destruct H. }
  destruct clear.
  - intros H; injection H as <- <-. intros H.
    apply in_app_or in H. destruct H as [H|H]; [apply Hev1 in H; destruct H; discriminate|].
    apply in_app_or in H. destruct H as [H|H]; [left; exact (Hsim H)|].
    rewrite app_assoc in H. apply in_app_or in H. destruct H as [H|[H|[]]]; [contradiction|discriminate].
  - destruct (chat_handler gc ss1 question ask) as [ss2 ev5] eqn:Ec.
    destruct (chat_handler_spec gc ss1 question ask ss2 ev5 Ec) as (_ & _ & Hev5).
    intros H; injection H as <- <-. intros H.
    apply in_app_or in H. destruct H as [H|H]; [apply Hev1 in H; destruct H; discriminate|].
    apply in_app_or in H. destruct H as [H|H]; [left; exact (Hsim H)|].
    rewrite !app_assoc in H. apply in_app_or in H. destruct H as [H|H].
    + apply in_app_or in H. destruct H as [H|H]; [contradiction|].
      apply Hev5 in H. destruct H as [H|(Ha & Hr & Hq & H)]; [discriminate|].
      injection H as ->. right. repeat split; assumption.
    + destruct (is_nil (chat_answer ss2)); [destruct H|destruct H as [H|[]]; discriminate].
Qed.

(** When the chat call raises, the run shows an error and keeps the previous
    answer, which is shown again. *)
Theorem app_run_chat_failure (ia idc : pychar -> bool) (gc : pystr -> option pystr)
  (ss : session) (uf : option upload) (simplify : bool) (question : pystr)
  (ss' : session) (evs : list ui_event) :
  raw_text (fst (on_upload ss uf)) <> [] ->
  py_strip question <> [] ->
  gc (chat_prompt (raw_text (fst (on_upload ss uf))) question) = None ->
  app_run ia idc gc ss uf simplify question true false = (ss', evs) ->
  chat_answer ss' = chat_answer ss /\ In UiError evs /\
  (chat_answer ss <> [] -> In (UiAnswer (chat_answer ss)) evs).
Proof.
  intros Hr Hq Hg. unfold app_run.
  pose proof (on_upload_answer ss uf) as Ha.
  destruct (on_upload ss uf) as [ss1 ev1]. cbn [fst] in Hr, Hg, Ha.
  unfold chat_handler.
  destruct (is_nil (py_strip question)) eqn:Eq; [apply is_nil_true in Eq; contradiction|].
  destruct (is_nil (raw_text ss1)) eqn:Er; [apply is_nil_true in Er; contradiction|].
  cbn [andb negb]. rewrite Hg. intros H; injection H as <- <-.
  split; [exact Ha|]. rewrite Ha. split.
  - in_goal.
  - intros Hn. destruct (is_nil (chat_answer ss)) eqn:En; [apply is_nil_true in En; contradiction|].
    in_goal.
Qed.

Lemma pystr_eqb_refl (a : pystr) : pystr_eqb a a = true.
Proof. unfold pystr_eqb. destruct (list_eq_dec N.eq_dec a a); [reflexivity|contradiction]. Qed.

(** A file uploaded under the name of the stored one is ignored: the stored
    text and file stay, and the preview shows the stored file's bytes. *)
Theorem app_run_same_name (ia idc : pychar -> bool) (gc : pystr -> option pystr)
  (ss : session) (o f : upload) (simplify : bool) (question : pystr) (ask clear : bool)
  (ss' : session) (evs : list ui_event) :
  uploaded_file_obj ss = Some o -> up_name f = up_name o ->
  app_run ia idc gc ss (Some f) simplify question ask clear = (ss', evs) ->
  raw_text ss' = raw_text ss /\ uploaded_file_obj ss' = Some o /\
  (forall b, In (UiPreview b) evs -> b = b64encode (up_bytes o)).
Proof.
  intros Ho Hn. unfold app_run, on_upload. rewrite Ho, Hn, pystr_eqb_refl. cbn [negb].
  assert (H2 : forall b, ~ In (UiPreview b)
            (if simplify then simplify_handler ia idc gc (raw_text ss) else [])).
  { intros b H. destruct simplify; [|destruct H].
    apply simplify_handler_events in H.
    destruct H as [H|[H|[[b' H]|[d H]]]]; discriminate. }
  destruct clear.
  - intros H; injection H as <- <-. cbn [raw_text uploaded_file_obj].
    split; [reflexivity|]. split; [exact Ho|]. intros b H.
    rewrite Ho in H. cbn [app] in H. apply in_app_or in H. destruct H as [H|H]; [apply H2 in H; destruct H|].
    destruct H as [H|H]; [congruence|].
    apply in_app_or in H. destruct H as [H|[H|[]]]; [|discriminate].
    destruct (is_nil (raw_text ss)); [destruct H as [H|[]]; discriminate|destruct H].
  - destruct (chat_handler gc ss question ask) as [ss2 ev5] eqn:Ec.
    destruct (chat_handler_spec gc ss question ask ss2 ev5 Ec) as (Hr & Hu & Hev5).
    intros H; injection H as <- <-.
    split; [exact Hr|]. split; [congruence|]. intros b H.
    rewrite Ho in H. cbn [app] in H. apply in_app_or in H. destruct H as [H|H]; [apply H2 in H; destruct H|].
    destruct H as [H|H]; [congruence|].
    apply in_app_or in H. destruct H as [H|H].
    + destruct (is_nil (raw_text ss)); [destruct H as [H|[]]; discriminate|destruct H].
    + apply in_app_or in H. destruct H as [H|H].
      * apply Hev5 in H. destruct H as [H|(_ & _ & _ & H)]; discriminate.
      * destruct (is_nil (chat_answer ss2)); [destruct H|destruct H as [H|[]]; discriminate].
Qed.

(** A file under a new name replaces the stored text and file, and the
    answer about the previous file is kept. *)
Theorem app_run_new_file (ia idc : pychar -> bool) (gc : pystr -> option pystr)
  (ss : session) (f : upload) (simplify : bool) (question : pystr)
  (ss' : session) (evs : list ui_event) :
  match uploaded_file_obj ss with None => True | Some o => up_name o <> up_name f end ->
  app_run ia idc gc ss (Some f) simplify question false false = (ss', evs) ->
  raw_text ss' = App.extract_pdf_text (up_pdf f) /\ uploaded_file_obj ss' = Some f /\
  chat_answer ss' = chat_answer ss /\ In UiSuccess evs.
Proof.
  intros Hn. unfold app_run, on_upload.
  replace (match uploaded_file_obj ss with None => true | Some o => negb (pystr_eqb (up_name o) (up_name f)) end)
    with true.
  2:{ destruct (uploaded_file_obj ss) as [o|]; [|reflexivity].
      unfold pystr_eqb. destruct (list_eq_dec N.eq_dec (up_name o) (up_name f)); [contradiction|reflexivity]. }
  unfold chat_handler. cbn [andb].
  intros H; injection H as <- <-. cbn [raw_text uploaded_file_obj chat_answer].
  repeat split. in_goal.
Qed.

(** ** Concrete runs of the further properties *)

(** A found PDF with one page of text, saved without error. *)
Lemma extractor_main_files_witness :
  In (CliWrite (output_file_of (lit "a.pdf")) (lit "hi" ++ NL))
     (extractor_main (lit "a.pdf") true (Pdf [Page (Some (lit "hi"))]) Written) /\
  output_file_of (lit "a.pdf") = lit "a_extracted.txt" /\
  output_file_of (lit "a.pdf") <> lit "a.pdf".
Proof.
  assert (H : In (CliWrite (output_file_of (lit "a.pdf")) (lit "hi" ++ NL))
     (extractor_main (lit "a.pdf") true (Pdf [Page (Some (lit "hi"))]) Written))
    by (vm_compute; in_list).
  split; [exact H|].
  split; [vm_compute; reflexivity|].
  exact (proj2 (proj2 (proj2 (extractor_main_files _ _ _ _ _ H)))).
Defined.

(** After a 45-line paragraph the second heading is drawn at [y = 52]. *)
Lemma generate_pdf_low_draws_witness :
  exists evs,
    generate_pdf latin1_isalnum latin1_isdecimal long_simplified (lit "x") (lit "y") = Some evs /\
    In (DrawString 40 52 (lit "2. Bullet Points Summary")) evs /\
    In (lit "2. Bullet Points Summary") pdf_headings.
Proof.
  destruct (generate_pdf latin1_isalnum latin1_isdecimal long_simplified (lit "x") (lit "y"))
    as [evs|] eqn:E; [|vm_compute in E; discriminate].
  assert (Hin : In (DrawString 40 52 (lit "2. Bullet Points Summary")) evs).
  { pose proof E as E'. vm_compute in E'. injection E' as <-. vm_compute. in_list. }
  exists evs. split; [reflexivity|]. split; [exact Hin|].
  exact (generate_pdf_low_draws _ _ _ _ _ evs 40 52 _ E Hin ltac:(lia)).
Defined.

(** [textwrap.wrap("hello world again", 11)] starts with [hello world]. *)
Lemma wrap_lines_fit_witness :
  In (lit "hello world") (textwrap_wrap latin1_isalnum latin1_isdecimal 11 (lit "hello world again")) /\
  length (lit "hello world") <= 11.
Proof.
  assert (H : In (lit "hello world")
                (textwrap_wrap latin1_isalnum latin1_isdecimal 11 (lit "hello world again")))
    by (vm_compute; in_list).
  split; [exact H|].
  exact (wrap_lines_fit _ _ 11 _ _ ltac:(lia) H).
Defined.

(** A reply whose sections are padded with spaces and newlines. *)
Lemma split_sections_stripped_witness :
  split_sections (SEC1 ++ NL ++ lit " A " ++ SEC2 ++ lit " B" ++ NL ++ SEC3 ++ lit "C  ")
  = Some (mkBundle (lit "A") (lit "B") (lit "C")) /\
  (lit "B" = [] \/ (is_py_space (hd 0%N (lit "B")) = false /\ is_py_space (last (lit "B") 0%N) = false)).
Proof.
  assert (H : split_sections (SEC1 ++ NL ++ lit " A " ++ SEC2 ++ lit " B" ++ NL ++ SEC3 ++ lit "C  ")
              = Some (mkBundle (lit "A") (lit "B") (lit "C"))) by (vm_compute; reflexivity).
  split; [exact H|].
  exact (split_sections_stripped _ _ H (lit "B") ltac:(right; left; reflexivity)).
Defined.

(** A reply that repeats both delimiters. *)
Lemma split_sections_no_delimiters_witness :
  split_sections (SEC2 ++ lit "B" ++ SEC2 ++ lit "X" ++ SEC3 ++ lit "C" ++ SEC3 ++ lit "D")
  = Some (mkBundle [] (lit "B") (lit "C")) /\
  str_in SEC2 (lit "B") = false /\ str_in SEC3_MARK (lit "B") = false /\
  str_in SEC3 (lit "C") = false.
Proof.
  assert (H : split_sections (SEC2 ++ lit "B" ++ SEC2 ++ lit "X" ++ SEC3 ++ lit "C" ++ SEC3 ++ lit "D")
              = Some (mkBundle [] (lit "B") (lit "C"))) by (vm_compute; reflexivity).
  split; [exact H|].
  exact (split_sections_no_delimiters _ _ H).
Defined.

(** Five bytes, the last group padded. *)
Lemma b64_round_trip_witness :
  b64encode [77; 97; 110; 0; 255]%N = lit "TWFuAP8=" /\
  b64decode (b64encode [77; 97; 110; 0; 255]%N) = Some [77; 97; 110; 0; 255]%N.
Proof.
  split; [vm_compute; reflexivity|].
  apply b64_round_trip.
  repeat (apply Forall_cons; [lia|]). apply Forall_nil.
Defined.

(** Simplify and Ask clicked together on a first upload. *)
Lemma app_run_model_calls_witness :
  exists ss' evs,
    app_run latin1_isalnum latin1_isdecimal (fun _ => Some (lit "ok")) session_init
      (Some (mkUpload (lit "a.pdf") [37%N] (Pdf [Page (Some (lit "hi"))]))) true (lit "why") true false
    = (ss', evs) /\
    In (UiModelCall (chat_prompt (lit "hi" ++ NL) (lit "why"))) evs /\
    ((Some (mkUpload (lit "a.pdf") [37%N] (Pdf [Page (Some (lit "hi"))])) <> None /\ true = true /\
      chat_prompt (lit "hi" ++ NL) (lit "why") = simplify_prompt (lit "hi" ++ NL)) \/
     (false = false /\ true = true /\ lit "hi" ++ NL <> [] /\ py_strip (lit "why") <> [] /\
      chat_prompt (lit "hi" ++ NL) (lit "why") = chat_prompt (lit "hi" ++ NL) (lit "why"))).
Proof.
  destruct (app_run latin1_isalnum latin1_isdecimal (fun _ => Some (lit "ok")) session_init
      (Some (mkUpload (lit "a.pdf") [37%N] (Pdf [Page (Some (lit "hi"))]))) true (lit "why") true false)
    as [ss' evs] eqn:E.
  assert (Hin : In (UiModelCall (chat_prompt (lit "hi" ++ NL) (lit "why"))) evs).
  { pose proof E as E'. vm_compute in E'. injection E' as _ <-. vm_compute. in_list. }
  exists ss', evs. split; [reflexivity|]. split; [exact Hin|].
  exact (app_run_model_calls _ _ _ _ _ _ _ _ _ ss' evs _ E Hin).
Defined.

(** A stored text, a question, and a model call that raises. *)
Lemma app_run_chat_failure_witness :
  exists ss' evs,
    app_run latin1_isalnum latin1_isdecimal (fun _ => None)
      (mkSession (lit "hi") None (lit "old")) None false (lit "why") true false = (ss', evs) /\
    chat_answer ss' = lit "old" /\ In UiError evs /\ In (UiAnswer (lit "old")) evs.
Proof.
  destruct (app_run latin1_isalnum latin1_isdecimal (fun _ => None)
      (mkSession (lit "hi") None (lit "old")) None false (lit "why") true false) as [ss' evs] eqn:E.
  destruct (app_run_chat_failure latin1_isalnum latin1_isdecimal (fun _ => None)
      (mkSession (lit "hi") None (lit "old")) None false (lit "why") ss' evs
      ltac:(vm_compute; discriminate) ltac:(vm_compute; discriminate) ltac:(reflexivity) E)
    as (Ha & He & Hs).
  exists ss', evs. split; [reflexivity|]. split; [exact Ha|]. split; [exact He|].
  apply Hs. vm_compute. discriminate.
Defined.

(** The same name uploaded again with other bytes. *)
Lemma app_run_same_name_witness :
  exists ss' evs,
    app_run latin1_isalnum latin1_isdecimal (fun _ => None)
      (mkSession (lit "hi") (Some (mkUpload (lit "a.pdf") [1; 2; 3]%N (Pdf []))) [])
      (Some (mkUpload (lit "a.pdf") [4; 5; 6]%N (Pdf [Page (Some (lit "new"))])))
      false [] false false = (ss', evs) /\
    raw_text ss' = lit "hi" /\ In (UiPreview (b64encode [1; 2; 3]%N)) evs.
Proof.
  destruct (app_run latin1_isalnum latin1_isdecimal (fun _ => None)
      (mkSession (lit "hi") (Some (mkUpload (lit "a.pdf") [1; 2; 3]%N (Pdf []))) [])
      (Some (mkUpload (lit "a.pdf") [4; 5; 6]%N (Pdf [Page (Some (lit "new"))])))
      false [] false false) as [ss' evs] eqn:E.
  destruct (app_run_same_name latin1_isalnum latin1_isdecimal (fun _ => None)
      (mkSession (lit "hi") (Some (mkUpload (lit "a.pdf") [1; 2; 3]%N (Pdf []))) [])
      (mkUpload (lit "a.pdf") [1; 2; 3]%N (Pdf []))
      (mkUpload (lit "a.pdf") [4; 5; 6]%N (Pdf [Page (Some (lit "new"))]))
      false [] false false ss' evs ltac:(reflexivity) ltac:(reflexivity) E) as (Hr & _ & _).
  exists ss', evs. split; [reflexivity|]. split; [exact Hr|].
  pose proof E as E'. vm_compute in E'. injection E' as _ <-. vm_compute. in_list.
Defined.

(** A file under a new name after an answered question. *)
Lemma app_run_new_file_witness :
  exists ss' evs,
    app_run latin1_isalnum latin1_isdecimal (fun _ => None)
      (mkSession (lit "hi") (Some (mkUpload (lit "a.pdf") [1]%N (Pdf []))) (lit "old"))
      (Some (mkUpload (lit "b.pdf") [2]%N (Pdf [Page (Some (lit "new"))])))
      false [] false false = (ss', evs) /\
    raw_text ss' = lit "new" ++ NL /\ chat_answer ss' = lit "old" /\ In UiSuccess evs.
Proof.
  destruct (app_run latin1_isalnum latin1_isdecimal (fun _ => None)
      (mkSession (lit "hi") (Some (mkUpload (lit "a.pdf") [1]%N (Pdf []))) (lit "old"))
      (Some (mkUpload (lit "b.pdf") [2]%N (Pdf [Page (Some (lit "new"))])))
      false [] false false) as [ss' evs] eqn:E.
  destruct (app_run_new_file latin1_isalnum latin1_isdecimal (fun _ => None)
      (mkSession (lit "hi") (Some (mkUpload (lit "a.pdf") [1]%N (Pdf []))) (lit "old"))
      (mkUpload (lit "b.pdf") [2]%N (Pdf [Page (Some (lit "new"))]))
      false [] ss' evs ltac:(vm_compute; discriminate) E) as (Hr & _ & Ha & Hs).
  exists ss', evs. split; [reflexivity|].
  split; [rewrite Hr; vm_compute; reflexivity|]. split; [exact Ha|exact Hs].
Defined.
